(** * Push rules of a project: the four requests of [push_rules.go]

    A shallow embedding of [push_rules.go] (package [gitlab]): the path
    every request is sent to, the two structs with their [json] tags, and
    the four methods of [ProjectsService].  What the file takes from
    elsewhere is a parameter: [time.Time] and the folding of names from the
    standard library ([Runtime]); [parseID], [client.NewRequest] and
    [client.Do] from the rest of the package ([Package]).  Every call made
    to the client is recorded in a log.

    The definitions come first, the theorems after them. *)

From Stdlib Require Import ZArith List String Ascii Bool Lia DecimalString.
Import ListNotations.

Local Open Scope string_scope.
Local Open Scope Z_scope.

(** * The program *)

(** ** [net/url]: [QueryEscape] *)

Module url.

(** A Go string is a sequence of bytes; so is a [string] here. *)
Definition byte_of (c : ascii) : Z := Z.of_N (N_of_ascii c).

Definition between (lo hi : ascii) (c : ascii) : bool :=
  (byte_of lo <=? byte_of c) && (byte_of c <=? byte_of hi).

Definition is_one_of (cs : string) (c : ascii) : bool :=
  existsb (Ascii.eqb c) (list_ascii_of_string cs).

(** [shouldEscape(c, encodeQueryComponent)]: letters, digits and the four
    marks stay; the reserved characters and everything else are escaped. *)
Definition shouldEscape (c : ascii) : bool :=
  if between "a" "z" c || between "A" "Z" c || between "0" "9" c then false
  else if is_one_of "-_.~" c then false
  else if is_one_of "$&+,/:;=?@" c then true
  else true.

Definition upperhex : string := "0123456789ABCDEF".

Definition hex_digit (i : Z) : ascii :=
  match String.get (Z.to_nat i) upperhex with
  | Some d => d
  | None => "0"%char
  end.

(** First loop of [escape]: how many spaces and how many bytes to write
    as [%XX]. *)
Fixpoint count_escapes (s : string) : Z * Z :=
  match s with
  | EmptyString => (0, 0)
  | String c s' =>
      let '(spaceCount, hexCount) := count_escapes s' in
      if shouldEscape c then
        if Ascii.eqb c " " then (spaceCount + 1, hexCount)
        else (spaceCount, hexCount + 1)
      else (spaceCount, hexCount)
  end.

(** Second loop of [escape]: the output, byte by byte. *)
Fixpoint escape_bytes (s : string) : string :=
  match s with
  | EmptyString => EmptyString
  | String c s' =>
      if Ascii.eqb c " " then String "+" (escape_bytes s')
      else if shouldEscape c then
        String "%"
          (String (hex_digit (Z.shiftr (byte_of c) 4))
             (String (hex_digit (Z.land (byte_of c) 15)) (escape_bytes s')))
      else String c (escape_bytes s')
  end.

Definition QueryEscape (s : string) : string :=
  let '(spaceCount, hexCount) := count_escapes s in
  if (spaceCount =? 0) && (hexCount =? 0) then s else escape_bytes s.

(** The bytes [QueryEscape] leaves alone. *)
Definition unreserved (c : ascii) : bool := negb (shouldEscape c).

Fixpoint all_bytes (p : ascii -> bool) (s : string) : bool :=
  match s with
  | EmptyString => true
  | String c s' => p c && all_bytes p s'
  end.

Definition is_digit (c : ascii) : bool := between "0" "9" c.

End url.

(** ** [unicode/utf8]: which bytes begin a well-formed sequence *)

Module utf8.

(** The table [first] and the [acceptRanges] it points to: a byte is
    ASCII, or can begin no sequence, or begins a sequence of [size] bytes
    whose second byte lies between [lo] and [hi]. *)
Inductive head : Type :=
| ASCII
| Invalid
| Start (size : nat) (lo hi : Z).

Definition first (b : Z) : head :=
  if b <? 0x80 then ASCII
  else if b <? 0xC2 then Invalid
  else if b <? 0xE0 then Start 2 0x80 0xBF
  else if b =? 0xE0 then Start 3 0xA0 0xBF
  else if b <? 0xED then Start 3 0x80 0xBF
  else if b =? 0xED then Start 3 0x80 0x9F
  else if b <? 0xF0 then Start 3 0x80 0xBF
  else if b =? 0xF0 then Start 4 0x90 0xBF
  else if b <? 0xF4 then Start 4 0x80 0xBF
  else if b =? 0xF4 then Start 4 0x80 0x8F
  else Invalid.

(** The next byte, when there is one and it lies between [lo] and [hi];
    the rest of the string after it. *)
Definition next_between (lo hi : Z) (s : string) : option string :=
  match s with
  | EmptyString => None
  | String c s' =>
      if (lo <=? url.byte_of c) && (url.byte_of c <=? hi) then Some s' else None
  end.

(** [DecodeRuneInString(s)] for a string that is not empty: the size of
    the well-formed sequence [s] begins with, or [None] where Go returns
    [(RuneError, 1)]. *)
Definition sequence (s : string) : option nat :=
  match s with
  | EmptyString => None
  | String c0 s1 =>
      match first (url.byte_of c0) with
      | ASCII => Some 1%nat
      | Invalid => None
      | Start size lo hi =>
          if (String.length s <? size)%nat then None
          else
            match next_between lo hi s1 with
            | None => None
            | Some s2 =>
                if (size <=? 2)%nat then Some 2%nat
                else
                  match next_between 0x80 0xBF s2 with
                  | None => None
                  | Some s3 =>
                      if (size <=? 3)%nat then Some 3%nat
                      else
                        match next_between 0x80 0xBF s3 with
                        | None => None
                        | Some _ => Some 4%nat
                        end
                  end
            end
      end
  end.

(** U+FFFD in UTF-8. *)
Definition replacement : string :=
  String (ascii_of_N 0xEF) (String (ascii_of_N 0xBF) (String (ascii_of_N 0xBD) "")).

(** The loop of [encoding/json] over a string it writes, read back as a
    string: a well-formed sequence is written as it is (as itself or as an
    escape that stands for it), a byte that begins none is written as
    [\ufffd].  [pending] bytes of a sequence already accepted are still to
    be copied. *)
Fixpoint written_from (pending : nat) (s : string) : string :=
  match s with
  | EmptyString => EmptyString
  | String c s' =>
      match pending with
      | S n => String c (written_from n s')
      | O =>
          match sequence s with
          | Some size => String c (written_from (size - 1) s')
          | None => replacement ++ written_from 0 s'
          end
      end
  end.

Definition written (s : string) : string := written_from 0 s.

(** [utf8.ValidString]. *)
Fixpoint valid_from (pending : nat) (s : string) : bool :=
  match s with
  | EmptyString => true
  | String c s' =>
      match pending with
      | S n => valid_from n s'
      | O =>
          match sequence s with
          | Some size => valid_from (size - 1) s'
          | None => false
          end
      end
  end.

Definition ValidString (s : string) : bool := valid_from 0 s.

End utf8.

(** ** [encoding/json]: what the struct tags mean

    The structs of [push_rules.go] carry [json:"name,omitempty"] tags.  The
    codec below is the part of [encoding/json] those tags drive: a struct
    is a table of fields, a JSON text is kept as its syntax tree, a string
    of the text as the Go string it stands for.  The text written for a Go
    string stands for that string only if the string is valid UTF-8
    ([utf8.written]). *)

#[local] Unset Elimination Schemes.
Inductive json : Type :=
| JNull
| JBool (b : bool)
| JInt (n : Z)               (* a number literal without fraction or exponent *)
| JFloat (literal : string)  (* any other number literal *)
| JString (s : string)
| JArray (items : list json)
| JObject (members : list (string * json)).
#[local] Set Elimination Schemes.

(** The field types that occur in the two structs. *)
Inductive base : Type := Int | Bool | Str | TimeStruct.

Inductive kind : Type :=
| Plain (b : base)   (* [int] *)
| Ptr (b : base).    (* [*string], [*bool], [*int], [*time.Time] *)

Inductive jerror : Type :=
| UnmarshalTypeError (want : base)   (* the JSON value does not fit the field *)
| UnmarshalStructError               (* the JSON value is not an object *)
| TimeUnmarshalError                 (* [time.Time.UnmarshalJSON] failed *)
| TimeMarshalError.                  (* [time.Time.MarshalJSON] failed *)

(** What storing one JSON value did: [Saved] is [d.saveError] (decoding
    goes on, the first such error is returned at the end), [Aborted] is an
    error of an [Unmarshaler], which ends the decoding at once. *)
Inductive outcome : Type :=
| Stored
| Saved (e : jerror)
| Aborted (e : jerror).

(** [int] has 64 bits on the platforms the client is built for. *)
Definition fits_int (n : Z) : bool := (- 2 ^ 63 <=? n) && (n <? 2 ^ 63).

Definition keys (members : list (string * json)) : list string :=
  map fst members.

(** What the codec asks of the rest of the standard library.  [time.Time]
    is opaque: its zero value and its two JSON methods (text in RFC 3339,
    or failure).  [equalFold] is the case-insensitive comparison of a field
    name with an object key that [encoding/json] falls back on when no
    name is equal to the key. *)
Class Runtime : Type := {
  Time : Type;
  Time_zero : Time;
  Time_MarshalJSON : Time -> option string;
  Time_UnmarshalJSON : string -> option Time;
  equalFold : string -> string -> bool
}.

Section Codec.

Context {rt : Runtime}.

Definition bvalue (b : base) : Type :=
  match b with
  | Int => Z
  | Bool => bool
  | Str => string
  | TimeStruct => Time
  end.

Definition value (k : kind) : Type :=
  match k with
  | Plain b => bvalue b
  | Ptr b => option (bvalue b)
  end.

Definition bzero (b : base) : bvalue b :=
  match b with
  | Int => 0
  | Bool => false
  | Str => ""
  | TimeStruct => Time_zero
  end.

Definition zero (k : kind) : value k :=
  match k with
  | Plain b => bzero b
  | Ptr _ => None
  end.

(** [isEmptyValue]: false, 0, a nil pointer, an empty string; a struct
    ([time.Time]) is never empty. *)
Definition isEmptyValue (k : kind) : value k -> bool :=
  match k with
  | Plain Int => fun v => v =? 0
  | Plain Bool => fun v => negb v
  | Plain Str => fun v => (String.length v =? 0)%nat
  | Plain TimeStruct => fun _ => false
  | Ptr _ => fun v => match v with None => true | Some _ => false end
  end.

(** A string is written with each byte that begins no UTF-8 sequence
    replaced by U+FFFD; a time by its own method. *)
Definition bencode (b : base) : bvalue b -> json + jerror :=
  match b with
  | Int => fun v => inl (JInt v)
  | Bool => fun v => inl (JBool v)
  | Str => fun v => inl (JString (utf8.written v))
  | TimeStruct => fun t =>
      match Time_MarshalJSON t with
      | Some s => inl (JString s)
      | None => inr TimeMarshalError
      end
  end.

(** A nil pointer that is not omitted is written as [null]. *)
Definition encode (k : kind) : value k -> json + jerror :=
  match k with
  | Plain b => bencode b
  | Ptr b => fun v =>
      match v with
      | None => inl JNull
      | Some x => bencode b x
      end
  end.

(** [literalStore] into a value that is not a pointer: [null] leaves it as
    it is, a value of another type is a saved [UnmarshalTypeError]. *)
Definition bdecode (b : base) : bvalue b -> json -> bvalue b * outcome :=
  match b with
  | Int => fun cur j =>
      match j with
      | JNull => (cur, Stored)
      | JInt n => if fits_int n then (n, Stored)
                  else (cur, Saved (UnmarshalTypeError Int))
      | _ => (cur, Saved (UnmarshalTypeError Int))
      end
  | Bool => fun cur j =>
      match j with
      | JNull => (cur, Stored)
      | JBool v => (v, Stored)
      | _ => (cur, Saved (UnmarshalTypeError Bool))
      end
  | Str => fun cur j =>
      match j with
      | JNull => (cur, Stored)
      | JString s => (s, Stored)
      | _ => (cur, Saved (UnmarshalTypeError Str))
      end
  | TimeStruct => fun cur j =>
      match j with
      | JNull => (cur, Stored)
      | JString s =>
          match Time_UnmarshalJSON s with
          | Some t => (t, Stored)
          | None => (cur, Aborted TimeUnmarshalError)
          end
      | _ => (cur, Aborted TimeUnmarshalError)
      end
  end.

(** Into a pointer: [null] sets it to nil; for anything else [indirect]
    allocates a zero value when the pointer is nil, before the value is
    looked at. *)
Definition decode (k : kind) : value k -> json -> value k * outcome :=
  match k with
  | Plain b => bdecode b
  | Ptr b => fun cur j =>
      match j with
      | JNull => (None, Stored)
      | _ =>
          let target := match cur with Some x => x | None => bzero b end in
          let '(v, o) := bdecode b target j in
          (Some v, o)
      end
  end.

(** *** Structs as tables of fields *)

Record field (R : Type) : Type := Field {
  fname : string;         (* the name in the tag *)
  omitEmpty : bool;       (* [,omitempty] *)
  fkind : kind;
  fget : R -> value fkind;
  fset : value fkind -> R -> R
}.

Arguments Field {R} _ _ _ _ _.
Arguments fname {R} _.
Arguments omitEmpty {R} _.
Arguments fkind {R} _.
Arguments fget {R} _ _.
Arguments fset {R} _ _ _.

Definition omitted {R : Type} (f : field R) (r : R) : bool :=
  omitEmpty f && isEmptyValue (fkind f) (fget f r).

(** The struct encoder: the fields in the order they are declared. *)
Fixpoint encode_fields {R : Type} (fs : list (field R)) (r : R)
  : list (string * json) + jerror :=
  match fs with
  | [] => inl []
  | f :: fs' =>
      if omitted f r then encode_fields fs' r
      else
        match encode (fkind f) (fget f r) with
        | inr e => inr e
        | inl j =>
            match encode_fields fs' r with
            | inl members => inl ((fname f, j) :: members)
            | inr e => inr e
            end
        end
  end.

Definition Marshal {R : Type} (fields : list (field R)) (r : R)
  : json + jerror :=
  match encode_fields fields r with
  | inl members => inl (JObject members)
  | inr e => inr e
  end.

(** [json.Marshal] of a pointer to the struct. *)
Definition MarshalPtr {R : Type} (fields : list (field R)) (p : option R)
  : json + jerror :=
  match p with
  | None => inl JNull
  | Some r => Marshal fields r
  end.

(** The field an object key is stored in: a field whose name is the key
    wins and ends the search; otherwise the first field whose name matches
    the key without regard to case. *)
Fixpoint find_field {R : Type} (fs : list (field R)) (key : string)
    (f : option (field R)) : option (field R) :=
  match fs with
  | [] => f
  | ff :: fs' =>
      if String.eqb (fname ff) key then Some ff
      else
        find_field fs' key
          (match f with
           | None => if equalFold (fname ff) key then Some ff else None
           | Some _ => f
           end)
  end.

(** The object decoder: the members in the order of the text; a key that
    no field matches is skipped. *)
Fixpoint decode_object {R : Type} (fields : list (field R))
    (members : list (string * json)) (r : R) (saved : option jerror)
  : R * option jerror :=
  match members with
  | [] => (r, saved)
  | (key, j) :: rest =>
      match find_field fields key None with
      | None => decode_object fields rest r saved
      | Some f =>
          let '(v, o) := decode (fkind f) (fget f r) j in
          let r' := fset f v r in
          match o with
          | Stored => decode_object fields rest r' saved
          | Saved e =>
              decode_object fields rest r'
                (match saved with None => Some e | Some _ => saved end)
          | Aborted e => (r', Some e)
          end
      end
  end.

(** [json.Unmarshal(data, &r)]: the struct after the call, and the error. *)
Definition Unmarshal {R : Type} (fields : list (field R)) (j : json) (r : R)
  : R * option jerror :=
  match j with
  | JNull => (r, None)
  | JObject members => decode_object fields members r None
  | _ => (r, Some UnmarshalStructError)
  end.

Definition key_matches (name key : string) : bool :=
  String.eqb name key || equalFold name key.

(** What makes a table of fields a faithful view of a struct: the names
    are distinct, a field holds what was stored in it, storing in one
    field leaves the others alone, the fields are all there is to the
    struct, and [zeroR] is the struct with every field zero. *)
Record lawful {R : Type} (fields : list (field R)) (zeroR : R) : Prop := {
  names_nodup : NoDup (map fname fields);
  get_set : forall f, In f fields -> forall v r, fget f (fset f v r) = v;
  get_set_other :
    forall f g, In f fields -> In g fields -> fname f <> fname g ->
    forall v r, fget g (fset f v r) = fget g r;
  extensional :
    forall r1 r2, (forall f, In f fields -> fget f r1 = fget f r2) -> r1 = r2;
  zero_fields : forall f, In f fields -> fget f zeroR = zero (fkind f)
}.

(** An [int] of the struct is an [int] of Go. *)
Definition fits (k : kind) : value k -> bool :=
  match k with
  | Plain Int => fun v => fits_int v
  | Ptr Int => fun v => match v with Some n => fits_int n | None => true end
  | _ => fun _ => true
  end.

Definition well_formed {R : Type} (fields : list (field R)) (r : R) : Prop :=
  forall f, In f fields -> fits (fkind f) (fget f r) = true.

(** ** The structs of [push_rules.go] *)

Record PushRules : Type := {
  ID : Z;
  PID : Z;
  CommitMessageRegex : option string;
  BranchNameRegex : option string;
  DenyDeleteTag : option bool;
  CreatedAt : option Time;
  MemberCheck : option bool;
  PreventSecrets : option bool;
  AuthorEmailRegex : option string;
  FileNameRegex : option string;
  MaxFileSizeMB : option Z
}.

(** [new(PushRules)] *)
Definition new_PushRules : PushRules := {|
  ID := 0;
  PID := 0;
  CommitMessageRegex := None;
  BranchNameRegex := None;
  DenyDeleteTag := None;
  CreatedAt := None;
  MemberCheck := None;
  PreventSecrets := None;
  AuthorEmailRegex := None;
  FileNameRegex := None;
  MaxFileSizeMB := None
|}.

Definition set_ID (v : Z) (r : PushRules) : PushRules :=
  {| ID := v; PID := PID r;
     CommitMessageRegex := CommitMessageRegex r; BranchNameRegex := BranchNameRegex r;
     DenyDeleteTag := DenyDeleteTag r; CreatedAt := CreatedAt r;
     MemberCheck := MemberCheck r; PreventSecrets := PreventSecrets r;
     AuthorEmailRegex := AuthorEmailRegex r; FileNameRegex := FileNameRegex r;
     MaxFileSizeMB := MaxFileSizeMB r |}.

Definition set_PID (v : Z) (r : PushRules) : PushRules :=
  {| ID := ID r; PID := v;
     CommitMessageRegex := CommitMessageRegex r; BranchNameRegex := BranchNameRegex r;
     DenyDeleteTag := DenyDeleteTag r; CreatedAt := CreatedAt r;
     MemberCheck := MemberCheck r; PreventSecrets := PreventSecrets r;
     AuthorEmailRegex := AuthorEmailRegex r; FileNameRegex := FileNameRegex r;
     MaxFileSizeMB := MaxFileSizeMB r |}.

Definition set_CommitMessageRegex (v : option string) (r : PushRules) : PushRules :=
  {| ID := ID r; PID := PID r;
     CommitMessageRegex := v; BranchNameRegex := BranchNameRegex r;
     DenyDeleteTag := DenyDeleteTag r; CreatedAt := CreatedAt r;
     MemberCheck := MemberCheck r; PreventSecrets := PreventSecrets r;
     AuthorEmailRegex := AuthorEmailRegex r; FileNameRegex := FileNameRegex r;
     MaxFileSizeMB := MaxFileSizeMB r |}.

Definition set_BranchNameRegex (v : option string) (r : PushRules) : PushRules :=
  {| ID := ID r; PID := PID r;
     CommitMessageRegex := CommitMessageRegex r; BranchNameRegex := v;
     DenyDeleteTag := DenyDeleteTag r; CreatedAt := CreatedAt r;
     MemberCheck := MemberCheck r; PreventSecrets := PreventSecrets r;
     AuthorEmailRegex := AuthorEmailRegex r; FileNameRegex := FileNameRegex r;
     MaxFileSizeMB := MaxFileSizeMB r |}.

Definition set_DenyDeleteTag (v : option bool) (r : PushRules) : PushRules :=
  {| ID := ID r; PID := PID r;
     CommitMessageRegex := CommitMessageRegex r; BranchNameRegex := BranchNameRegex r;
     DenyDeleteTag := v; CreatedAt := CreatedAt r;
     MemberCheck := MemberCheck r; PreventSecrets := PreventSecrets r;
     AuthorEmailRegex := AuthorEmailRegex r; FileNameRegex := FileNameRegex r;
     MaxFileSizeMB := MaxFileSizeMB r |}.

Definition set_CreatedAt (v : option Time) (r : PushRules) : PushRules :=
  {| ID := ID r; PID := PID r;
     CommitMessageRegex := CommitMessageRegex r; BranchNameRegex := BranchNameRegex r;
     DenyDeleteTag := DenyDeleteTag r; CreatedAt := v;
     MemberCheck := MemberCheck r; PreventSecrets := PreventSecrets r;
     AuthorEmailRegex := AuthorEmailRegex r; FileNameRegex := FileNameRegex r;
     MaxFileSizeMB := MaxFileSizeMB r |}.

Definition set_MemberCheck (v : option bool) (r : PushRules) : PushRules :=
  {| ID := ID r; PID := PID r;
     CommitMessageRegex := CommitMessageRegex r; BranchNameRegex := BranchNameRegex r;
     DenyDeleteTag := DenyDeleteTag r; CreatedAt := CreatedAt r;
     MemberCheck := v; PreventSecrets := PreventSecrets r;
     AuthorEmailRegex := AuthorEmailRegex r; FileNameRegex := FileNameRegex r;
     MaxFileSizeMB := MaxFileSizeMB r |}.

Definition set_PreventSecrets (v : option bool) (r : PushRules) : PushRules :=
  {| ID := ID r; PID := PID r;
     CommitMessageRegex := CommitMessageRegex r; BranchNameRegex := BranchNameRegex r;
     DenyDeleteTag := DenyDeleteTag r; CreatedAt := CreatedAt r;
     MemberCheck := MemberCheck r; PreventSecrets := v;
     AuthorEmailRegex := AuthorEmailRegex r; FileNameRegex := FileNameRegex r;
     MaxFileSizeMB := MaxFileSizeMB r |}.

Definition set_AuthorEmailRegex (v : option string) (r : PushRules) : PushRules :=
  {| ID := ID r; PID := PID r;
     CommitMessageRegex := CommitMessageRegex r; BranchNameRegex := BranchNameRegex r;
     DenyDeleteTag := DenyDeleteTag r; CreatedAt := CreatedAt r;
     MemberCheck := MemberCheck r; PreventSecrets := PreventSecrets r;
     AuthorEmailRegex := v; FileNameRegex := FileNameRegex r;
     MaxFileSizeMB := MaxFileSizeMB r |}.

Definition set_FileNameRegex (v : option string) (r : PushRules) : PushRules :=
  {| ID := ID r; PID := PID r;
     CommitMessageRegex := CommitMessageRegex r; BranchNameRegex := BranchNameRegex r;
     DenyDeleteTag := DenyDeleteTag r; CreatedAt := CreatedAt r;
     MemberCheck := MemberCheck r; PreventSecrets := PreventSecrets r;
     AuthorEmailRegex := AuthorEmailRegex r; FileNameRegex := v;
     MaxFileSizeMB := MaxFileSizeMB r |}.

Definition set_MaxFileSizeMB (v : option Z) (r : PushRules) : PushRules :=
  {| ID := ID r; PID := PID r;
     CommitMessageRegex := CommitMessageRegex r; BranchNameRegex := BranchNameRegex r;
     DenyDeleteTag := DenyDeleteTag r; CreatedAt := CreatedAt r;
     MemberCheck := MemberCheck r; PreventSecrets := PreventSecrets r;
     AuthorEmailRegex := AuthorEmailRegex r; FileNameRegex := FileNameRegex r;
     MaxFileSizeMB := v |}.

(** The struct declaration, line by line: tag name, [omitempty], type. *)
Definition PushRules_fields : list (field PushRules) := [
  Field "id" true (Plain Int) ID set_ID;
  Field "project_id" true (Plain Int) PID set_PID;
  Field "commit_message_regex" true (Ptr Str) CommitMessageRegex set_CommitMessageRegex;
  Field "branch_name_regex" true (Ptr Str) BranchNameRegex set_BranchNameRegex;
  Field "deny_delete_tag" true (Ptr Bool) DenyDeleteTag set_DenyDeleteTag;
  Field "created_at" true (Ptr TimeStruct) CreatedAt set_CreatedAt;
  Field "member_check" true (Ptr Bool) MemberCheck set_MemberCheck;
  Field "prevent_secrets" true (Ptr Bool) PreventSecrets set_PreventSecrets;
  Field "author_email_regex" true (Ptr Str) AuthorEmailRegex set_AuthorEmailRegex;
  Field "file_name_regex" true (Ptr Str) FileNameRegex set_FileNameRegex;
  Field "max_file_size" true (Ptr Int) MaxFileSizeMB set_MaxFileSizeMB
].

Record AddPushRulesOptions : Type := {
  Opt_CommitMessageRegex : option string;
  Opt_BranchNameRegex : option string;
  Opt_DenyDeleteTag : option bool;
  Opt_MemberCheck : option bool;
  Opt_PreventSecrets : option bool;
  Opt_AuthorEmailRegex : option string;
  Opt_FileNameRegex : option string;
  Opt_MaxFileSizeMB : option Z
}.

(** [type EditPushRulesOptions AddPushRulesOptions]: the same fields and
    the same tags under another name. *)
Definition EditPushRulesOptions : Type := AddPushRulesOptions.

Definition AddPushRulesOptions_fields : list (field AddPushRulesOptions) := [
  Field "commit_message_regex" true (Ptr Str) Opt_CommitMessageRegex
    (fun v o => {| Opt_CommitMessageRegex := v;
                   Opt_BranchNameRegex := Opt_BranchNameRegex o;
                   Opt_DenyDeleteTag := Opt_DenyDeleteTag o;
                   Opt_MemberCheck := Opt_MemberCheck o;
                   Opt_PreventSecrets := Opt_PreventSecrets o;
                   Opt_AuthorEmailRegex := Opt_AuthorEmailRegex o;
                   Opt_FileNameRegex := Opt_FileNameRegex o;
                   Opt_MaxFileSizeMB := Opt_MaxFileSizeMB o |});
  Field "branch_name_regex" true (Ptr Str) Opt_BranchNameRegex
    (fun v o => {| Opt_CommitMessageRegex := Opt_CommitMessageRegex o;
                   Opt_BranchNameRegex := v;
                   Opt_DenyDeleteTag := Opt_DenyDeleteTag o;
                   Opt_MemberCheck := Opt_MemberCheck o;
                   Opt_PreventSecrets := Opt_PreventSecrets o;
                   Opt_AuthorEmailRegex := Opt_AuthorEmailRegex o;
                   Opt_FileNameRegex := Opt_FileNameRegex o;
                   Opt_MaxFileSizeMB := Opt_MaxFileSizeMB o |});
  Field "deny_delete_tag" true (Ptr Bool) Opt_DenyDeleteTag
    (fun v o => {| Opt_CommitMessageRegex := Opt_CommitMessageRegex o;
                   Opt_BranchNameRegex := Opt_BranchNameRegex o;
                   Opt_DenyDeleteTag := v;
                   Opt_MemberCheck := Opt_MemberCheck o;
                   Opt_PreventSecrets := Opt_PreventSecrets o;
                   Opt_AuthorEmailRegex := Opt_AuthorEmailRegex o;
                   Opt_FileNameRegex := Opt_FileNameRegex o;
                   Opt_MaxFileSizeMB := Opt_MaxFileSizeMB o |});
  Field "member_check" true (Ptr Bool) Opt_MemberCheck
    (fun v o => {| Opt_CommitMessageRegex := Opt_CommitMessageRegex o;
                   Opt_BranchNameRegex := Opt_BranchNameRegex o;
                   Opt_DenyDeleteTag := Opt_DenyDeleteTag o;
                   Opt_MemberCheck := v;
                   Opt_PreventSecrets := Opt_PreventSecrets o;
                   Opt_AuthorEmailRegex := Opt_AuthorEmailRegex o;
                   Opt_FileNameRegex := Opt_FileNameRegex o;
                   Opt_MaxFileSizeMB := Opt_MaxFileSizeMB o |});
  Field "prevent_secrets" true (Ptr Bool) Opt_PreventSecrets
    (fun v o => {| Opt_CommitMessageRegex := Opt_CommitMessageRegex o;
                   Opt_BranchNameRegex := Opt_BranchNameRegex o;
                   Opt_DenyDeleteTag := Opt_DenyDeleteTag o;
                   Opt_MemberCheck := Opt_MemberCheck o;
                   Opt_PreventSecrets := v;
                   Opt_AuthorEmailRegex := Opt_AuthorEmailRegex o;
                   Opt_FileNameRegex := Opt_FileNameRegex o;
                   Opt_MaxFileSizeMB := Opt_MaxFileSizeMB o |});
  Field "author_email_regex" true (Ptr Str) Opt_AuthorEmailRegex
    (fun v o => {| Opt_CommitMessageRegex := Opt_CommitMessageRegex o;
                   Opt_BranchNameRegex := Opt_BranchNameRegex o;
                   Opt_DenyDeleteTag := Opt_DenyDeleteTag o;
                   Opt_MemberCheck := Opt_MemberCheck o;
                   Opt_PreventSecrets := Opt_PreventSecrets o;
                   Opt_AuthorEmailRegex := v;
                   Opt_FileNameRegex := Opt_FileNameRegex o;
                   Opt_MaxFileSizeMB := Opt_MaxFileSizeMB o |});
  Field "file_name_regex" true (Ptr Str) Opt_FileNameRegex
    (fun v o => {| Opt_CommitMessageRegex := Opt_CommitMessageRegex o;
                   Opt_BranchNameRegex := Opt_BranchNameRegex o;
                   Opt_DenyDeleteTag := Opt_DenyDeleteTag o;
                   Opt_MemberCheck := Opt_MemberCheck o;
                   Opt_PreventSecrets := Opt_PreventSecrets o;
                   Opt_AuthorEmailRegex := Opt_AuthorEmailRegex o;
                   Opt_FileNameRegex := v;
                   Opt_MaxFileSizeMB := Opt_MaxFileSizeMB o |});
  Field "max_file_size" true (Ptr Int) Opt_MaxFileSizeMB
    (fun v o => {| Opt_CommitMessageRegex := Opt_CommitMessageRegex o;
                   Opt_BranchNameRegex := Opt_BranchNameRegex o;
                   Opt_DenyDeleteTag := Opt_DenyDeleteTag o;
                   Opt_MemberCheck := Opt_MemberCheck o;
                   Opt_PreventSecrets := Opt_PreventSecrets o;
                   Opt_AuthorEmailRegex := Opt_AuthorEmailRegex o;
                   Opt_FileNameRegex := Opt_FileNameRegex o;
                   Opt_MaxFileSizeMB := v |})
].

Definition new_AddPushRulesOptions : AddPushRulesOptions := {|
  Opt_CommitMessageRegex := None;
  Opt_BranchNameRegex := None;
  Opt_DenyDeleteTag := None;
  Opt_MemberCheck := None;
  Opt_PreventSecrets := None;
  Opt_AuthorEmailRegex := None;
  Opt_FileNameRegex := None;
  Opt_MaxFileSizeMB := None
|}.

(** *** Which keys a value is written with *)

Definition when_set {A : Type} (p : option A) (name : string) : list string :=
  match p with
  | Some _ => [name]
  | None => []
  end.

Definition when_nonzero (n : Z) (name : string) : list string :=
  if n =? 0 then [] else [name].

(** The fields of an options value that the caller filled in. *)
Definition populated (o : AddPushRulesOptions) : list string :=
  when_set (Opt_CommitMessageRegex o) "commit_message_regex" ++
  when_set (Opt_BranchNameRegex o) "branch_name_regex" ++
  when_set (Opt_DenyDeleteTag o) "deny_delete_tag" ++
  when_set (Opt_MemberCheck o) "member_check" ++
  when_set (Opt_PreventSecrets o) "prevent_secrets" ++
  when_set (Opt_AuthorEmailRegex o) "author_email_regex" ++
  when_set (Opt_FileNameRegex o) "file_name_regex" ++
  when_set (Opt_MaxFileSizeMB o) "max_file_size".

(** The fields of a [PushRules] that hold something: a pointer that is not
    nil, an identifier that is not 0. *)
Definition present (r : PushRules) : list string :=
  when_nonzero (ID r) "id" ++
  when_nonzero (PID r) "project_id" ++
  when_set (CommitMessageRegex r) "commit_message_regex" ++
  when_set (BranchNameRegex r) "branch_name_regex" ++
  when_set (DenyDeleteTag r) "deny_delete_tag" ++
  when_set (CreatedAt r) "created_at" ++
  when_set (MemberCheck r) "member_check" ++
  when_set (PreventSecrets r) "prevent_secrets" ++
  when_set (AuthorEmailRegex r) "author_email_regex" ++
  when_set (FileNameRegex r) "file_name_regex" ++
  when_set (MaxFileSizeMB r) "max_file_size".

(** No key of the object selects the field called [name]. *)
Definition lacks (members : list (string * json)) (name : string) : Prop :=
  forall key, In key (keys members) -> key_matches name key = false.

End Codec.

Arguments Field {rt R} _ _ _ _ _.
Arguments fname {rt R} _.
Arguments omitEmpty {rt R} _.
Arguments fkind {rt R} _.
Arguments fget {rt R} _ _.
Arguments fset {rt R} _ _ _.
Arguments names_nodup {rt R fields zeroR} _.
Arguments get_set {rt R fields zeroR} _ _ _ _ _.
Arguments get_set_other {rt R fields zeroR} _ _ _ _ _ _ _ _.
Arguments extensional {rt R fields zeroR} _ _ _ _.
Arguments zero_fields {rt R fields zeroR} _ _ _.

(** ** [ProjectsService]: the four methods *)

(** [pid interface{}]: a value of any dynamic type. *)
Inductive any : Type :=
| AnyNil
| AnyInt (n : Z)
| AnyString (s : string)
| AnyOther (type_name : string).

(** The [opt interface{}] argument of [NewRequest]: nil, a
    [*AddPushRulesOptions] or a [*EditPushRulesOptions], [ptr] being what a
    pointer to an options struct is. *)
Inductive OptArg (ptr : Type) : Type :=
| NoOpt
| AddOpt (opt : option ptr)
| EditOpt (opt : option ptr).

Arguments NoOpt {ptr}.
Arguments AddOpt {ptr} opt.
Arguments EditOpt {ptr} opt.

(** The rest of the package and the memory of the caller.
    - [error], [Request], [Response], [OptionFunc]: Go's [error], the
      client's [*http.Request] and [*Response], an [OptionFunc];
    - [World]: everything outside the methods that a call can read or
      change (the network, the server, the memory of the caller), and
      [deref], the options struct that a pointer of the caller points to;
    - [parseID], [NewRequest] and [Do]: [parseID(pid)],
      [s.client.NewRequest(method, u, opt, options)] and
      [s.client.Do(req, v)], all three in another file of the package.
      [Do] is given what [v] points to (nothing when [v] is nil) and
      returns what [v] points to afterwards, the response and the error. *)
Class Package {rt : Runtime} : Type := {
  error : Type;
  Request : Type;
  Response : Type;
  OptionFunc : Type;
  ptr : Type;
  World : Type;
  deref : World -> ptr -> AddPushRulesOptions;
  parseID : any -> string + error;
  NewRequest :
    string -> string -> OptArg ptr -> list OptionFunc -> World ->
    (Request + error) * World;
  Do :
    Request -> option PushRules -> World ->
    (option PushRules * option Response * option error) * World
}.

Section ProjectsService.

Context {rt : Runtime} {pkg : Package}.

(** The calls made to the client, oldest first. *)
Inductive call : Type :=
| NewRequestCall (method path : string) (opt : OptArg ptr) (options : list OptionFunc)
| DoCall (req : Request) (v : option PushRules).

(** The world, and the log of the calls made so far. *)
Record state : Type := {
  world : World;
  calls : list call
}.

(** A computation that may call the client: from the state it starts in to
    its result and the state it ends in. *)
Definition M (A : Type) : Type := state -> A * state.

Definition ret {A : Type} (a : A) : M A := fun st => (a, st).

Definition bind {A B : Type} (m : M A) (k : A -> M B) : M B :=
  fun st => let '(a, st') := m st in k a st'.

Notation "x <- m ;; k" := (bind m (fun x => k))
  (at level 61, m at next level, right associativity).
Notation "' pat <- m ;; k" := (bind m (fun x => match x with pat => k end))
  (at level 61, pat pattern, m at next level, right associativity).

(** A call to the client is made in the world and entered in the log. *)
Definition client_NewRequest (method u : string) (opt : OptArg ptr)
    (options : list OptionFunc) : M (Request + error) :=
  fun st =>
    let '(r, w) := NewRequest method u opt options (world st) in
    (r, {| world := w;
           calls := calls st ++ [NewRequestCall method u opt options] |}).

Definition client_Do (req : Request) (v : option PushRules)
  : M (option PushRules * option Response * option error) :=
  fun st =>
    let '(r, w) := Do req v (world st) in
    (r, {| world := w; calls := calls st ++ [DoCall req v] |}).

(** What [p] points to once [Do] has returned. *)
Definition pointee (p : PushRules) (after : option PushRules)
  : PushRules :=
  match after with
  | Some p' => p'
  | None => p
  end.

Definition GetPushRule (pid : any) (options : list OptionFunc)
  : M (option PushRules * option Response * option error) :=
  match parseID pid with
  | inr err => ret (None, None, Some err)
  | inl project =>
      let u := "projects/" ++ url.QueryEscape project ++ "/push_rule" in
      req <- client_NewRequest "GET" u NoOpt options ;;
      match req with
      | inr err => ret (None, None, Some err)
      | inl req =>
          let p := new_PushRules in
          '(after, resp, err) <- client_Do req (Some p) ;;
          match err with
          | Some _ => ret (None, resp, err)
          | None => ret (Some (pointee p after), resp, err)
          end
      end
  end.

Definition AddPushRule (pid : any) (opt : option ptr) (options : list OptionFunc)
  : M (option PushRules * option Response * option error) :=
  match parseID pid with
  | inr err => ret (None, None, Some err)
  | inl project =>
      let u := "projects/" ++ url.QueryEscape project ++ "/push_rule" in
      req <- client_NewRequest "POST" u (AddOpt opt) options ;;
      match req with
      | inr err => ret (None, None, Some err)
      | inl req =>
          let p := new_PushRules in
          '(after, resp, err) <- client_Do req (Some p) ;;
          match err with
          | Some _ => ret (None, resp, err)
          | None => ret (Some (pointee p after), resp, err)
          end
      end
  end.

Definition EditPushRule (pid : any) (opt : option ptr) (options : list OptionFunc)
  : M (option PushRules * option Response * option error) :=
  match parseID pid with
  | inr err => ret (None, None, Some err)
  | inl project =>
      let u := "projects/" ++ url.QueryEscape project ++ "/push_rule" in
      req <- client_NewRequest "PUT" u (EditOpt opt) options ;;
      match req with
      | inr err => ret (None, None, Some err)
      | inl req =>
          let p := new_PushRules in
          '(after, resp, err) <- client_Do req (Some p) ;;
          match err with
          | Some _ => ret (None, resp, err)
          | None => ret (Some (pointee p after), resp, err)
          end
      end
  end.

Definition DeletePushRule (pid : any) (options : list OptionFunc)
  : M (option Response * option error) :=
  match parseID pid with
  | inr err => ret (None, Some err)
  | inl project =>
      let u := "projects/" ++ url.QueryEscape project ++ "/push_rule" in
      req <- client_NewRequest "DELETE" u NoOpt options ;;
      match req with
      | inr err => ret (None, Some err)
      | inl req =>
          '(_, resp, err) <- client_Do req None ;;
          ret (resp, err)
      end
  end.

(** *** Reading a run *)

(** The calls made between two states. *)
Definition new_calls (before after : state) : list call :=
  skipn (List.length (calls before)) (calls after).

Definition is_Do (c : call) : bool :=
  match c with
  | DoCall _ _ => true
  | NewRequestCall _ _ _ _ => false
  end.

Definition count_Do (tr : list call) : nat := List.length (filter is_Do tr).

(** The three results of [GetPushRule], [AddPushRule] and [EditPushRule]. *)
Definition rules_of {A B C : Type} (x : A * B * C) : A := fst (fst x).
Definition response_of {A B C : Type} (x : A * B * C) : B := snd (fst x).
Definition error_of {A B C : Type} (x : A * B * C) : C := snd x.

(** The four methods under one name, to speak of all of them at once;
    [DeletePushRule] returns no [*PushRules]. *)
Inductive operation : Type :=
| Get
| Add (opt : option ptr)
| Edit (opt : option ptr)
| Delete.

Definition run (op : operation) (pid : any) (options : list OptionFunc)
  : M (option PushRules * option Response * option error) :=
  match op with
  | Get => GetPushRule pid options
  | Add opt => AddPushRule pid opt options
  | Edit opt => EditPushRule pid opt options
  | Delete =>
      fun st =>
        let '((resp, err), st') := DeletePushRule pid options st in
        ((None, resp, err), st')
  end.

Definition method (op : operation) : string :=
  match op with
  | Get => "GET"
  | Add _ => "POST"
  | Edit _ => "PUT"
  | Delete => "DELETE"
  end.

Definition body (op : operation) : OptArg ptr :=
  match op with
  | Get => NoOpt
  | Add opt => AddOpt opt
  | Edit opt => EditOpt opt
  | Delete => NoOpt
  end.

Definition target (op : operation) : option PushRules :=
  match op with
  | Delete => None
  | _ => Some new_PushRules
  end.

Definition returned (op : operation) (after : option PushRules)
    (err : option error) : option PushRules :=
  match op, err with
  | Delete, _ => None
  | _, Some _ => None
  | _, None => Some (pointee new_PushRules after)
  end.

Definition push_rule_path (project : string) : string :=
  "projects/" ++ url.QueryEscape project ++ "/push_rule".

End ProjectsService.

(** ** A client to run the methods with

    A stand-in for the rest of the package, to evaluate the methods on
    concrete calls: a request is its method and path, an [OptionFunc]
    either passes or fails, and the server answers from a script of status
    codes and JSON bodies, which [Do] decodes into [v]. *)

(** Modelled from the spec: [parseID] is declared in a file of the package
    that is not among the sources.  By the spec a project reference is
    "either a numeric ID or a namespace/name path string", it "must resolve
    to a non-empty identifier string", and a reference of the "wrong type or
    empty value" is an error raised "before any I/O". *)
Definition parseID_spec (pid : any) : string + string :=
  match pid with
  | AnyInt n => inl (NilZero.string_of_int (Z.to_int n))
  | AnyString s =>
      if String.eqb s "" then inr "invalid ID: empty" else inl s
  | _ => inr "invalid ID type"
  end.

Module Demo.

(** A time kept as its RFC 3339 text. *)
Definition zero_time : string := "0001-01-01T00:00:00Z".

Definition lower (c : ascii) : ascii :=
  if url.between "A" "Z" c
  then ascii_of_N (N_of_ascii c + 32)
  else c.

Fixpoint lower_all (s : string) : string :=
  match s with
  | EmptyString => EmptyString
  | String c s' => String (lower c) (lower_all s')
  end.

(** Equality of ASCII names without regard to case. *)
Definition fold_eqb (name key : string) : bool :=
  String.eqb (lower_all name) (lower_all key).

Definition runtime : Runtime := {|
  Time := string;
  Time_zero := zero_time;
  Time_MarshalJSON := fun t => Some t;
  Time_UnmarshalJSON := fun s => Some s;
  equalFold := fold_eqb
|}.

Definition Rules : Type := @PushRules runtime.
Definition fields : list (@field runtime Rules) := PushRules_fields.
Definition new : Rules := new_PushRules.

Definition unmarshal_into (j : json) (r : Rules) : Rules * option jerror :=
  Unmarshal fields j r.

Definition unmarshal (j : json) : Rules * option jerror := unmarshal_into j new.

Definition marshal (r : Rules) : json + jerror := Marshal fields r.

Definition marshal_options (o : AddPushRulesOptions) : json + jerror :=
  MarshalPtr (rt := runtime) AddPushRulesOptions_fields (Some o).

(** What the server will answer, in order: a status and a body. *)
Definition answer : Type := (Z * json)%type.

(** The world of the example: the answers still to come, and the options
    structs of the caller, by address. *)
Record world_of_calls : Type := {
  script : list answer;
  heap : list AddPushRulesOptions
}.

Definition only_secrets : AddPushRulesOptions := {|
  Opt_CommitMessageRegex := None;
  Opt_BranchNameRegex := None;
  Opt_DenyDeleteTag := None;
  Opt_MemberCheck := None;
  Opt_PreventSecrets := Some true;
  Opt_AuthorEmailRegex := None;
  Opt_FileNameRegex := None;
  Opt_MaxFileSizeMB := None
|}.

Definition options_at (w : world_of_calls) (l : nat) : AddPushRulesOptions :=
  nth l (heap w) new_AddPushRulesOptions.

(** A world whose server will give these answers; the caller has one
    options struct, at address 0. *)
Definition serving (answers : list answer) : world_of_calls :=
  {| script := answers; heap := [only_secrets] |}.

(** An [OptionFunc] is the error it returns, if any. *)
Fixpoint first_failure (options : list (option string)) : option string :=
  match options with
  | [] => None
  | Some e :: _ => Some e
  | None :: rest => first_failure rest
  end.

(** A request is its method and its path. *)
Definition new_request (method u : string) (opt : OptArg nat)
    (options : list (option string)) (w : world_of_calls)
  : (string * string + string) * world_of_calls :=
  match first_failure options with
  | Some e => (inr e, w)
  | None => (inl (method, u), w)
  end.

Definition describe (e : jerror) : string :=
  match e with
  | UnmarshalTypeError _ => "json: cannot unmarshal"
  | UnmarshalStructError => "json: cannot unmarshal into struct"
  | TimeUnmarshalError => "parsing time"
  | TimeMarshalError => "json: error calling MarshalJSON"
  end.

(** No answer left: the connection fails.  A status outside 200..299 is an
    error.  Otherwise the body is decoded into [v], when there is one. *)
Definition do (req : string * string) (v : option Rules) (w : world_of_calls)
  : (option Rules * option Z * option string) * world_of_calls :=
  match script w with
  | [] => ((v, None, Some "connection refused"), w)
  | (status, reply) :: rest =>
      let w' := {| script := rest; heap := heap w |} in
      if (200 <=? status) && (status <? 300) then
        match v with
        | None => ((None, Some status, None), w')
        | Some p =>
            let '(p', e) := unmarshal_into reply p in
            ((Some p', Some status, option_map describe e), w')
        end
      else ((v, Some status, Some "status"), w')
  end.

Definition package : @Package runtime := {|
  error := string;
  Request := (string * string)%type;
  Response := Z;
  OptionFunc := option string;
  ptr := nat;
  World := world_of_calls;
  deref := options_at;
  parseID := parseID_spec;
  NewRequest := new_request;
  Do := do
|}.

Definition State : Type := @state runtime package.

Definition start (answers : list answer) : State :=
  @Build_state runtime package (serving answers) [].

(** The two calls, as the example's client sees them. *)
Definition requested (method u : string) (opt : OptArg nat)
    (options : list (option string)) : @call runtime package :=
  @NewRequestCall runtime package method u opt options.

Definition sent (req : string * string) (v : option Rules)
  : @call runtime package :=
  @DoCall runtime package req v.

Definition GetPushRule := @GetPushRule runtime package.
Definition AddPushRule := @AddPushRule runtime package.
Definition EditPushRule := @EditPushRule runtime package.
Definition DeletePushRule := @DeletePushRule runtime package.
Definition run := @run runtime package.

(** [{"id":1,"project_id":42,"deny_delete_tag":true}] and the value it
    stands for. *)
Definition reply_42 : json :=
  JObject [("id", JInt 1); ("project_id", JInt 42); ("deny_delete_tag", JBool true)].

Definition rules_42 : Rules :=
  set_DenyDeleteTag (Some true) (set_PID 42 (set_ID 1 new)).

(** A reply whose [deny_delete_tag] is not a boolean. *)
Definition reply_bad : json :=
  JObject [("id", JInt 1); ("deny_delete_tag", JString "yes")].

End Demo.

(** ** Words for further properties of the program *)

(** The bytes [QueryEscape] writes: the unreserved ones, [%] and [+]. *)
Definition segment_byte (c : ascii) : bool :=
  url.unreserved c || Ascii.eqb c "%" || Ascii.eqb c "+".

(** How often a byte occurs in a string. *)
Fixpoint count_byte (c : ascii) (s : string) : nat :=
  match s with
  | EmptyString => 0%nat
  | String c' s' => ((if Ascii.eqb c' c then 1 else 0) + count_byte c s')%nat
  end.

Section Readings.

Context {rt : Runtime}.

(** The [PushRules] whose eight writable fields are those of an options
    value, and that holds nothing else. *)
Definition of_options (o : AddPushRulesOptions) : PushRules := {|
  ID := 0;
  PID := 0;
  CommitMessageRegex := Opt_CommitMessageRegex o;
  BranchNameRegex := Opt_BranchNameRegex o;
  DenyDeleteTag := Opt_DenyDeleteTag o;
  CreatedAt := None;
  MemberCheck := Opt_MemberCheck o;
  PreventSecrets := Opt_PreventSecrets o;
  AuthorEmailRegex := Opt_AuthorEmailRegex o;
  FileNameRegex := Opt_FileNameRegex o;
  MaxFileSizeMB := Opt_MaxFileSizeMB o
|}.

(** A value [v] that, once encoded, decodes as [v'], whatever was there
    before; a value that is omitted for being empty stays as it is. *)
Definition writes_as (k : kind) (v v' : value k) : Prop :=
  (isEmptyValue k v = true -> v' = v) /\
  forall j cur, encode k v = inl j -> decode k cur j = (v', Stored).

(** A [PushRules] with its four strings as [encoding/json] writes them. *)
Definition as_written (r : PushRules) : PushRules := {|
  ID := ID r;
  PID := PID r;
  CommitMessageRegex := option_map utf8.written (CommitMessageRegex r);
  BranchNameRegex := option_map utf8.written (BranchNameRegex r);
  DenyDeleteTag := DenyDeleteTag r;
  CreatedAt := CreatedAt r;
  MemberCheck := MemberCheck r;
  PreventSecrets := PreventSecrets r;
  AuthorEmailRegex := option_map utf8.written (AuthorEmailRegex r);
  FileNameRegex := option_map utf8.written (FileNameRegex r);
  MaxFileSizeMB := MaxFileSizeMB r
|}.

(** The strings a [PushRules] holds are valid UTF-8. *)
Definition valid_strings (r : PushRules) : Prop :=
  forall s,
  In (Some s) [CommitMessageRegex r; BranchNameRegex r;
               AuthorEmailRegex r; FileNameRegex r] ->
  utf8.ValidString s = true.

(** The time in [CreatedAt], if there is one, parses back from what it is
    written as. *)
Definition created_at_reads_back (r : PushRules) : Prop :=
  forall t s,
  CreatedAt r = Some t -> Time_MarshalJSON t = Some s ->
  Time_UnmarshalJSON s = Some t.

(** A JSON value that a field of kind [k] cannot take: storing it is
    an error, whatever the field held. *)
Definition rejected (k : kind) (j : json) : Prop :=
  forall cur, snd (decode k cur j) <> Stored.

End Readings.

(** An options value with three fields set, each to the zero of its
    type, to evaluate the codec on. *)
Definition zeros_set : AddPushRulesOptions := {|
  Opt_CommitMessageRegex := Some "";
  Opt_BranchNameRegex := None;
  Opt_DenyDeleteTag := Some false;
  Opt_MemberCheck := None;
  Opt_PreventSecrets := None;
  Opt_AuthorEmailRegex := None;
  Opt_FileNameRegex := None;
  Opt_MaxFileSizeMB := Some 0
|}.

(** * The theorems *)

(** Case analysis on which field of a table a field is. *)
Ltac each_field H :=
  simpl in H;
  repeat (let E := fresh "E" in destruct H as [E|H]; [subst|]);
  try contradiction.

(** ** [QueryEscape] *)

Lemma count_escapes_nonneg (s : string) :
  0 <= fst (url.count_escapes s) /\ 0 <= snd (url.count_escapes s).
Proof.
  induction s as [|c s IH]; simpl; [lia|].
  destruct (url.count_escapes s) as [sp hx]; simpl in *.
  destruct (url.shouldEscape c); [destruct (Ascii.eqb c " ")|]; simpl; lia.
Qed.

Lemma space_is_escaped : url.shouldEscape " " = true.
Proof. reflexivity. Qed.

(** When the first loop counts nothing, the second loop would copy the
    input: the early [return s] is the same string. *)
Lemma escape_bytes_nothing (s : string) :
  url.count_escapes s = (0, 0) -> url.escape_bytes s = s.
Proof.
  induction s as [|c s IH]; simpl; [reflexivity|].
  pose proof (count_escapes_nonneg s) as [Hs Hh].
  destruct (url.count_escapes s) as [sp hx]; simpl in *.
  destruct (Ascii.eqb c " ") eqn:Esp.
  - apply Ascii.eqb_eq in Esp; subst c. rewrite space_is_escaped.
    intros E. inversion E. lia.
  - destruct (url.shouldEscape c).
    + intros E. inversion E. lia.
    + intros E. inversion E; subst. now rewrite IH.
Qed.

Lemma QueryEscape_bytes (s : string) : url.QueryEscape s = url.escape_bytes s.
Proof.
  unfold url.QueryEscape.
  pose proof (escape_bytes_nothing s) as H.
  destruct (url.count_escapes s) as [sp hx].
  destruct (sp =? 0) eqn:E1; simpl; [|reflexivity].
  destruct (hx =? 0) eqn:E2; simpl; [|reflexivity].
  apply Z.eqb_eq in E1, E2; subst. symmetry; now apply H.
Qed.

Lemma escape_bytes_app (a b : string) :
  url.escape_bytes (a ++ b) = url.escape_bytes a ++ url.escape_bytes b.
Proof.
  induction a as [|c a IH]; simpl; [reflexivity|].
  destruct (Ascii.eqb c " "); [|destruct (url.shouldEscape c)]; simpl; now rewrite IH.
Qed.

Lemma QueryEscape_app (a b : string) :
  url.QueryEscape (a ++ b) = url.QueryEscape a ++ url.QueryEscape b.
Proof. rewrite !QueryEscape_bytes. apply escape_bytes_app. Qed.

Lemma unreserved_not_space (c : ascii) :
  url.unreserved c = true -> Ascii.eqb c " " = false.
Proof.
  unfold url.unreserved. destruct (Ascii.eqb c " ") eqn:E; [|reflexivity].
  apply Ascii.eqb_eq in E; subst c. discriminate.
Qed.

Lemma QueryEscape_unreserved (s : string) :
  url.all_bytes url.unreserved s = true -> url.QueryEscape s = s.
Proof.
  rewrite QueryEscape_bytes.
  induction s as [|c s IH]; simpl; [reflexivity|].
  intros H. apply andb_true_iff in H as [Hc Hs].
  rewrite (unreserved_not_space c Hc).
  unfold url.unreserved in Hc. apply negb_true_iff in Hc. rewrite Hc.
  now rewrite IH.
Qed.

Lemma digit_unreserved (c : ascii) : url.is_digit c = true -> url.unreserved c = true.
Proof.
  unfold url.is_digit, url.unreserved, url.shouldEscape. intros ->.
  now rewrite !orb_true_r.
Qed.

Lemma all_bytes_impl (p q : ascii -> bool) (s : string) :
  (forall c, p c = true -> q c = true) ->
  url.all_bytes p s = true -> url.all_bytes q s = true.
Proof.
  intros Hpq. induction s as [|c s IH]; simpl; [reflexivity|].
  intros H. apply andb_true_iff in H as [Hc Hs].
  now rewrite (Hpq c Hc), IH.
Qed.

Lemma digits_escape (s : string) :
  url.all_bytes (fun c => url.is_digit c || Ascii.eqb c "-") s = true ->
  url.QueryEscape s = s.
Proof.
  intros H. apply QueryEscape_unreserved.
  revert H. apply all_bytes_impl.
  intros c Hc. apply orb_true_iff in Hc as [Hd|Hm].
  - now apply digit_unreserved.
  - apply Ascii.eqb_eq in Hm. now subst c.
Qed.

(** ** Strings as they are written *)

(** A string of valid UTF-8 is written as it is. *)
Lemma valid_written_from (s : string) :
  forall pending,
  utf8.valid_from pending s = true -> utf8.written_from pending s = s.
Proof.
  induction s as [|c s IH]; intros pending H; [reflexivity|].
  cbn [utf8.valid_from utf8.written_from] in *.
  destruct pending as [|n].
  - destruct (utf8.sequence (String c s)) as [size|]; [|discriminate].
    f_equal. now apply IH.
  - f_equal. now apply IH.
Qed.

Lemma valid_written (s : string) :
  utf8.ValidString s = true -> utf8.written s = s.
Proof. apply valid_written_from. Qed.

Lemma ascii_sequence (c : ascii) (s : string) :
  url.byte_of c < 0x80 -> utf8.sequence (String c s) = Some 1%nat.
Proof.
  intros H. unfold utf8.sequence, utf8.first.
  apply Z.ltb_lt in H. now rewrite H.
Qed.

(** A string of ASCII bytes is valid UTF-8. *)
Lemma ascii_valid (s : string) :
  url.all_bytes (fun c => url.byte_of c <? 0x80) s = true ->
  utf8.ValidString s = true.
Proof.
  unfold utf8.ValidString.
  induction s as [|c s IH]; intros H; [reflexivity|].
  simpl in H. apply andb_true_iff in H as [Hc Hs].
  cbn [utf8.valid_from].
  rewrite (ascii_sequence c s) by now apply Z.ltb_lt.
  now apply IH.
Qed.

(** ** The codec *)

Section CodecFacts.

Context {rt : Runtime}.

Lemma bencode_not_null (b : base) (x : bvalue b) (j : json) :
  bencode b x = inl j -> j <> JNull.
Proof.
  destruct b; simpl; try (intros E; inversion E; discriminate).
  destruct (Time_MarshalJSON x); intros E; inversion E; discriminate.
Qed.

Lemma encode_null (k : kind) (v : value k) :
  encode k v = inl JNull -> isEmptyValue k v = true.
Proof.
  destruct k as [b|b]; simpl.
  - intros E. now apply bencode_not_null in E.
  - destruct v as [x|]; [|reflexivity].
    intros E. now apply bencode_not_null in E.
Qed.

Lemma empty_is_zero (k : kind) (v : value k) :
  isEmptyValue k v = true -> v = zero k.
Proof.
  destruct k as [[]|b]; simpl in *.
  - intros E. now apply Z.eqb_eq in E.
  - now destruct v.
  - destruct v; [reflexivity | discriminate].
  - discriminate.
  - now destruct v.
Qed.

(** *** Any struct and its table of fields *)

Section StructFacts.

Variable R : Type.
Variable fields : list (field R).

(** *** The encoder *)

Lemma encode_fields_keys (fs : list (field R)) (r : R) :
  forall members, encode_fields fs r = inl members ->
  keys members = map fname (filter (fun f => negb (omitted f r)) fs).
Proof.
  induction fs as [|f fs IH]; simpl; intros members E.
  - now inversion E.
  - destruct (omitted f r); simpl; [now apply IH|].
    destruct (encode (fkind f) (fget f r)) as [j|e]; [|discriminate].
    destruct (encode_fields fs r) as [ms|e]; [|discriminate].
    inversion E; subst; simpl. f_equal. now apply IH.
Qed.

Lemma encode_fields_no_null (fs : list (field R)) (r : R) :
  (forall f, In f fs -> omitEmpty f = true) ->
  forall members, encode_fields fs r = inl members ->
  forall key j, In (key, j) members -> j <> JNull.
Proof.
  induction fs as [|f fs IH]; simpl; intros Homit members E key j Hin.
  - inversion E; subst. destruct Hin.
  - assert (Hfs : forall g, In g fs -> omitEmpty g = true) by auto.
    unfold omitted in E. rewrite (Homit f (or_introl eq_refl)) in E. simpl in E.
    destruct (isEmptyValue (fkind f) (fget f r)) eqn:Eempty;
      [now apply (IH Hfs members E key j)|].
    destruct (encode (fkind f) (fget f r)) as [j0|e] eqn:Eenc; [|discriminate].
    destruct (encode_fields fs r) as [ms|e]; [|discriminate].
    inversion E; subst. destruct Hin as [Hhd|Htl].
    + inversion Hhd; subst. intros ->.
      apply encode_null in Eenc. congruence.
    + now apply (IH Hfs ms eq_refl key j).
Qed.

(** The encoder fails only where a field's own encoding does. *)
Lemma encode_fields_total (fs : list (field R)) (r : R) :
  (forall f, In f fs -> omitted f r = false ->
             exists j, encode (fkind f) (fget f r) = inl j) ->
  exists members, encode_fields fs r = inl members.
Proof.
  induction fs as [|f fs IH]; simpl; intros H; [now eexists|].
  destruct IH as [ms Hms]; [intros g Hg; apply H; now right|].
  destruct (omitted f r) eqn:Eom; [now exists ms|].
  destruct (H f (or_introl eq_refl) Eom) as [j Hj].
  rewrite Hj, Hms. now eexists.
Qed.

(** *** The search for a field *)

Lemma find_field_exact (fs : list (field R)) (f : field R) :
  NoDup (map fname fs) -> In f fs ->
  forall acc, find_field fs (fname f) acc = Some f.
Proof.
  induction fs as [|ff fs IH]; simpl; intros Hnd Hin acc; [destruct Hin|].
  inversion Hnd as [|? ? Hnotin Hnd']; subst.
  destruct Hin as [->|Hin].
  - now rewrite String.eqb_refl.
  - destruct (String.eqb (fname ff) (fname f)) eqn:E.
    + apply String.eqb_eq in E. exfalso. apply Hnotin. rewrite E.
      now apply in_map.
    + now apply IH.
Qed.

Lemma find_field_sound (fs : list (field R)) (key : string) :
  forall acc f, find_field fs key acc = Some f ->
  acc = Some f \/ (In f fs /\ key_matches (fname f) key = true).
Proof.
  induction fs as [|ff fs IH]; simpl; intros acc f E; [now left|].
  unfold key_matches in *.
  destruct (String.eqb (fname ff) key) eqn:Eeq.
  - inversion E; subst. right. split; [now left|]. now rewrite Eeq.
  - apply IH in E as [E|[Hin Hm]].
    + destruct acc as [a|]; [now left|].
      destruct (equalFold (fname ff) key) eqn:Efold; [|discriminate].
      inversion E; subst. right. split; [now left|].
      now rewrite Efold, orb_true_r.
    + right. split; [now right | assumption].
Qed.

Lemma same_name_same_field (f g : field R) :
  NoDup (map fname fields) -> In f fields -> In g fields ->
  fname f = fname g -> f = g.
Proof.
  intros Hnd Hf Hg Hname.
  pose proof (find_field_exact fields f Hnd Hf None) as Ef.
  pose proof (find_field_exact fields g Hnd Hg None) as Eg.
  rewrite Hname in Ef. congruence.
Qed.

(** *** The decoder *)

(** A field that no key of the object matches keeps the value it had. *)
Lemma decode_object_untouched (zeroR : R) (g : field R) :
  lawful fields zeroR -> In g fields ->
  forall members r saved,
  (forall key, In key (keys members) -> key_matches (fname g) key = false) ->
  fget g (fst (decode_object fields members r saved)) = fget g r.
Proof.
  intros Hlaw Hg. induction members as [|[key j] rest IH]; simpl;
    intros r saved Hkeys; [reflexivity|].
  assert (Hrest : forall k, In k (keys rest) -> key_matches (fname g) k = false)
    by (intros k Hk; apply Hkeys; now right).
  destruct (find_field fields key None) as [f|] eqn:Efind; [|now apply IH].
  apply find_field_sound in Efind as [Habs|[Hf Hm]]; [discriminate|].
  assert (Hne : fname f <> fname g).
  { intros Heq. rewrite Heq in Hm.
    rewrite (Hkeys key (or_introl eq_refl)) in Hm. discriminate. }
  destruct (decode (fkind f) (fget f r) j) as [v o].
  assert (Hstep : fget g (fset f v r) = fget g r)
    by now apply (get_set_other Hlaw f g).
  destruct o as [|e|e]; simpl.
  - now rewrite IH.
  - now rewrite IH.
  - exact Hstep.
Qed.

Lemma encode_fields_keys_incl (fs : list (field R)) (r : R) :
  forall members, encode_fields fs r = inl members ->
  incl (keys members) (map fname fs).
Proof.
  intros members E. rewrite (encode_fields_keys fs r members E).
  intros name Hin. apply in_map_iff in Hin as [f [<- Hf]].
  apply filter_In in Hf as [Hf _]. now apply in_map.
Qed.

(** Decoding what the encoder wrote for some of the fields of [r] stores,
    in each field that was written, what that field of [r] is written as
    (the same field of [rn]), and leaves the other fields alone. *)
Lemma decode_encoded_as (zeroR : R) (r rn : R) :
  lawful fields zeroR ->
  (forall f, In f fields -> writes_as (fkind f) (fget f r) (fget f rn)) ->
  forall fs, incl fs fields -> NoDup (map fname fs) ->
  forall members r0 saved, encode_fields fs r = inl members ->
  exists r',
    decode_object fields members r0 saved = (r', saved) /\
    forall g, In g fields ->
      (In (fname g) (keys members) -> fget g r' = fget g rn) /\
      (~ In (fname g) (keys members) -> fget g r' = fget g r0).
Proof.
  intros Hlaw Hw. induction fs as [|f fs IH]; intros Hincl Hnd members r0 saved E.
  - simpl in E. inversion E; subst. exists r0. split; [reflexivity|].
    intros g Hg. split; [intros []|reflexivity].
  - simpl in E, Hnd. inversion Hnd as [|? ? Hnotin Hnd']; subst.
    assert (Hf : In f fields) by (apply Hincl; now left).
    assert (Hincl' : incl fs fields) by (intros g Hg; apply Hincl; now right).
    destruct (omitted f r); [now apply IH|].
    destruct (encode (fkind f) (fget f r)) as [j|e] eqn:Eenc; [|discriminate].
    destruct (encode_fields fs r) as [ms|e] eqn:Ems; [|discriminate].
    inversion E; subst. simpl.
    rewrite (find_field_exact fields f (names_nodup Hlaw) Hf).
    rewrite (proj2 (Hw f Hf) j (fget f r0) Eenc).
    destruct (IH Hincl' Hnd' ms (fset f (fget f rn) r0) saved eq_refl)
      as [r' [Hdec Hget]].
    exists r'. split; [exact Hdec|].
    intros g Hg. destruct (Hget g Hg) as [Hin Hout].
    assert (Hfresh : ~ In (fname f) (keys ms)).
    { intros Hk. apply Hnotin. now apply (encode_fields_keys_incl fs r ms Ems). }
    split.
    + intros [Heq|Hk]; [|now apply Hin].
      assert (g = f) as ->
        by (symmetry; now apply (same_name_same_field f g (names_nodup Hlaw))).
      destruct (Hget f Hf) as [_ Hout'].
      rewrite (Hout' Hfresh). now apply (get_set Hlaw).
    + intros Hk. rewrite Hout by (intros Hk'; apply Hk; now right).
      apply (get_set_other Hlaw f g Hf Hg).
      intros Heq. apply Hk. now left.
Qed.

(** The round trip of a struct through its JSON object: what comes back
    is the struct as it is written. *)
Lemma Unmarshal_Marshal_as (zeroR : R) (r rn : R) (j : json) :
  lawful fields zeroR ->
  (forall f, In f fields -> writes_as (fkind f) (fget f r) (fget f rn)) ->
  Marshal fields r = inl j -> Unmarshal fields j zeroR = (rn, None).
Proof.
  intros Hlaw Hw. unfold Marshal.
  destruct (encode_fields fields r) as [members|e] eqn:E; [|discriminate].
  intros Ej. inversion Ej; subst. simpl.
  destruct (decode_encoded_as zeroR r rn Hlaw Hw fields (incl_refl _)
              (names_nodup Hlaw) members zeroR None E) as [r' [Hdec Hget]].
  rewrite Hdec. f_equal.
  apply (extensional Hlaw). intros g Hg.
  destruct (Hget g Hg) as [Hin Hout].
  destruct (in_dec string_dec (fname g) (keys members)) as [Hk|Hk]; [now apply Hin|].
  rewrite (Hout Hk), (zero_fields Hlaw g Hg).
  assert (Hempty : isEmptyValue (fkind g) (fget g r) = true).
  { destruct (isEmptyValue (fkind g) (fget g r)) eqn:Eempty; [reflexivity|].
    exfalso. apply Hk. rewrite (encode_fields_keys fields r members E).
    apply in_map. apply filter_In. split; [exact Hg|].
    unfold omitted. now rewrite Eempty, andb_false_r. }
  rewrite (proj1 (Hw g Hg) Hempty).
  symmetry. now apply empty_is_zero.
Qed.

End StructFacts.

(** ** The structs of [push_rules.go] *)

Lemma PushRules_lawful : lawful PushRules_fields new_PushRules.
Proof.
  split.
  - simpl. repeat (constructor; [simpl; intuition discriminate|]). constructor.
  - intros f Hf v r. each_field Hf; reflexivity.
  - intros f g Hf Hg Hne v r.
    each_field Hf; each_field Hg; solve [reflexivity | now elim Hne].
  - intros r1 r2 H.
    pose proof (proj2 (Forall_forall _ _) H) as HF. unfold PushRules_fields in HF.
    repeat match goal with
           | HF : Forall _ (_ :: _) |- _ => inversion HF; clear HF; subst
           end.
    destruct r1, r2; simpl in *; congruence.
  - intros f Hf. each_field Hf; reflexivity.
Qed.

Lemma AddPushRulesOptions_lawful :
  lawful AddPushRulesOptions_fields new_AddPushRulesOptions.
Proof.
  split.
  - simpl. repeat (constructor; [simpl; intuition discriminate|]). constructor.
  - intros f Hf v r. each_field Hf; reflexivity.
  - intros f g Hf Hg Hne v r.
    each_field Hf; each_field Hg; solve [reflexivity | now elim Hne].
  - intros r1 r2 H.
    pose proof (proj2 (Forall_forall _ _) H) as HF.
    unfold AddPushRulesOptions_fields in HF.
    repeat match goal with
           | HF : Forall _ (_ :: _) |- _ => inversion HF; clear HF; subst
           end.
    destruct r1, r2; simpl in *; congruence.
  - intros f Hf. each_field Hf; reflexivity.
Qed.

(** *** Which keys a value is written with *)

Lemma written_cons {R : Type} (r : R) (f : field R) (fs : list (field R)) :
  map fname (filter (fun f => negb (omitted f r)) (f :: fs)) =
  ((if omitted f r then [] else [fname f]) ++
   map fname (filter (fun f => negb (omitted f r)) fs))%list.
Proof. simpl. now destruct (omitted f r). Qed.

Lemma when_set_omitted {R : Type} (r : R) (name : string) (b : base)
    (get : R -> option (bvalue b)) (set : option (bvalue b) -> R -> R) :
  (if omitted (Field name true (Ptr b) get set) r then [] else [name]) =
  when_set (get r) name.
Proof. unfold omitted; simpl. now destruct (get r). Qed.

Lemma when_nonzero_omitted {R : Type} (r : R) (name : string)
    (get : R -> Z) (set : Z -> R -> R) :
  (if omitted (Field name true (Plain Int) get set) r then [] else [name]) =
  when_nonzero (get r) name.
Proof. reflexivity. Qed.

Lemma populated_written (o : AddPushRulesOptions) :
  map fname (filter (fun f => negb (omitted f o)) AddPushRulesOptions_fields) =
  populated o.
Proof.
  unfold AddPushRulesOptions_fields, populated.
  rewrite !written_cons, !when_set_omitted. simpl. now rewrite app_nil_r.
Qed.

Lemma present_written (r : PushRules) :
  map fname (filter (fun f => negb (omitted f r)) PushRules_fields) = present r.
Proof.
  unfold PushRules_fields, present.
  rewrite !written_cons, !when_set_omitted, !when_nonzero_omitted.
  simpl. now rewrite app_nil_r.
Qed.

Lemma written_nodup {R : Type} (r : R) (fs : list (field R)) :
  NoDup (map fname fs) ->
  NoDup (map fname (filter (fun f => negb (omitted f r)) fs)).
Proof.
  induction fs as [|f fs IH]; simpl; intros Hnd; [constructor|].
  inversion Hnd as [|? ? Hnotin Hnd']; subst.
  destruct (omitted f r); simpl; [now apply IH|].
  constructor; [|now apply IH].
  intros Hin. apply Hnotin. apply in_map_iff in Hin as [g [<- Hg]].
  apply filter_In in Hg as [Hg _]. now apply in_map.
Qed.

Lemma all_omitEmpty_PushRules (f : field PushRules) :
  In f PushRules_fields -> omitEmpty f = true.
Proof. intros Hf. each_field Hf; reflexivity. Qed.

Lemma all_omitEmpty_options (f : field AddPushRulesOptions) :
  In f AddPushRulesOptions_fields -> omitEmpty f = true.
Proof. intros Hf. each_field Hf; reflexivity. Qed.

(** An options struct has no [time.Time]: its encoding cannot fail. *)
Lemma options_encode_total (o : AddPushRulesOptions) :
  exists members, encode_fields AddPushRulesOptions_fields o = inl members.
Proof.
  apply encode_fields_total. intros f Hf _.
  each_field Hf; simpl;
    match goal with |- context [match ?p with Some _ => _ | None => _ end] =>
      destruct p end; now eexists.
Qed.

(** *** The request body of [AddPushRule] and [EditPushRule] *)

(** C2. Whatever subset of its fields an options value has populated, a
    strict one or not, the JSON object written for it ([json.Marshal] of
    the pointer that [AddPushRule] and [EditPushRule] hand to [NewRequest];
    [EditPushRulesOptions] is the same struct) has exactly the populated
    fields as its keys, each once, and none of them is [null]: an unset
    field is never sent. *)
Theorem sparse_options_body (o : AddPushRulesOptions) :
  exists members,
    MarshalPtr AddPushRulesOptions_fields (Some o) = inl (JObject members) /\
    keys members = populated o /\
    NoDup (keys members) /\
    (forall key j, In (key, j) members -> j <> JNull).
Proof.
  destruct (options_encode_total o) as [members E].
  exists members. simpl. unfold Marshal. rewrite E.
  pose proof (encode_fields_keys _ AddPushRulesOptions_fields o members E) as Hkeys.
  repeat split.
  - now rewrite Hkeys, populated_written.
  - rewrite Hkeys. apply written_nodup.
    exact (names_nodup AddPushRulesOptions_lawful).
  - intros key j. revert key j.
    apply (encode_fields_no_null _ AddPushRulesOptions_fields o
             all_omitEmpty_options members E).
Qed.

(** *** The wire names *)

Lemma PushRules_encode_total (r : PushRules) :
  (forall t, CreatedAt r = Some t -> Time_MarshalJSON t <> None) ->
  exists members, encode_fields PushRules_fields r = inl members.
Proof.
  intros Ht. apply encode_fields_total. intros f Hf _.
  each_field Hf; simpl; try (now eexists);
    try (match goal with |- context [match ?p with Some _ => _ | None => _ end] =>
           destruct p end; now eexists).
  destruct (CreatedAt r) as [t|]; [|now eexists].
  specialize (Ht t eq_refl).
  destruct (Time_MarshalJSON t); [now eexists | contradiction].
Qed.

Lemma PushRules_written (r : PushRules) (members : list (string * json)) :
  encode_fields PushRules_fields r = inl members ->
  keys members = present r /\
  forall key j, In (key, j) members -> j <> JNull.
Proof.
  intros E. split.
  - rewrite (encode_fields_keys _ PushRules_fields r members E).
    apply present_written.
  - intros key j. revert key j.
    apply (encode_fields_no_null _ PushRules_fields r
             all_omitEmpty_PushRules members E).
Qed.

(** C5. The struct tags give the eleven fields of [PushRules] the wire
    names [id], [project_id], [commit_message_regex], [branch_name_regex],
    [deny_delete_tag], [created_at], [member_check], [prevent_secrets],
    [author_email_regex], [file_name_regex] and [max_file_size], and the
    eight fields of the options the same names without [id], [project_id]
    and [created_at]; every field is tagged [omitempty]; a value is
    written with exactly the keys of the fields that are set, and no
    member of the object is [null]; the encoding succeeds unless
    [created_at] holds a time that [time.Time] cannot write. *)
Theorem wire_names :
  map fname PushRules_fields =
    ["id"; "project_id"; "commit_message_regex"; "branch_name_regex";
     "deny_delete_tag"; "created_at"; "member_check"; "prevent_secrets";
     "author_email_regex"; "file_name_regex"; "max_file_size"] /\
  map fname AddPushRulesOptions_fields =
    ["commit_message_regex"; "branch_name_regex"; "deny_delete_tag";
     "member_check"; "prevent_secrets"; "author_email_regex";
     "file_name_regex"; "max_file_size"] /\
  (forall f, In f PushRules_fields -> omitEmpty f = true) /\
  (forall f, In f AddPushRulesOptions_fields -> omitEmpty f = true) /\
  (forall r members,
     encode_fields PushRules_fields r = inl members ->
     keys members = present r /\
     forall key j, In (key, j) members -> j <> JNull) /\
  (forall r,
     (forall t, CreatedAt r = Some t -> Time_MarshalJSON t <> None) ->
     exists members, Marshal PushRules_fields r = inl (JObject members)).
Proof.
  split; [reflexivity|]. split; [reflexivity|].
  split; [exact all_omitEmpty_PushRules|].
  split; [exact all_omitEmpty_options|].
  split; [exact PushRules_written|].
  intros r Ht. destruct (PushRules_encode_total r Ht) as [members E].
  exists members. unfold Marshal. now rewrite E.
Qed.

(** *** Absent, or present with a zero value *)

(** Field by field, a [PushRules] whose integers are Go [int]s and whose
    time parses back is written as [as_written] has it. *)
Lemma PushRules_writes_as (r : PushRules) :
  well_formed PushRules_fields r -> created_at_reads_back r ->
  forall f, In f PushRules_fields ->
  writes_as (fkind f) (fget f r) (fget f (as_written r)).
Proof.
  intros Hwf Htime f Hf. pose proof (Hwf f Hf) as Hfit.
  each_field Hf; (split; [intros Hempty | intros j cur E]); simpl in *.
  - reflexivity.
  - inversion E; subst. now rewrite Hfit.
  - reflexivity.
  - inversion E; subst. now rewrite Hfit.
  - now destruct (CommitMessageRegex r).
  - destruct (CommitMessageRegex r); inversion E; reflexivity.
  - now destruct (BranchNameRegex r).
  - destruct (BranchNameRegex r); inversion E; reflexivity.
  - reflexivity.
  - destruct (DenyDeleteTag r); inversion E; reflexivity.
  - reflexivity.
  - destruct (CreatedAt r) as [t|] eqn:Et; [|inversion E; reflexivity].
    destruct (Time_MarshalJSON t) as [w|] eqn:Ew; [|discriminate].
    inversion E; subst. now rewrite (Htime t w Et Ew).
  - reflexivity.
  - destruct (MemberCheck r); inversion E; reflexivity.
  - reflexivity.
  - destruct (PreventSecrets r); inversion E; reflexivity.
  - now destruct (AuthorEmailRegex r).
  - destruct (AuthorEmailRegex r); inversion E; reflexivity.
  - now destruct (FileNameRegex r).
  - destruct (FileNameRegex r); inversion E; reflexivity.
  - reflexivity.
  - destruct (MaxFileSizeMB r) as [n|]; inversion E; subst; [|reflexivity].
    now rewrite Hfit.
Qed.

Lemma valid_as_written (r : PushRules) :
  valid_strings r -> as_written r = r.
Proof.
  intros Hv. unfold valid_strings in Hv. destruct r as [i p c b d t m s a f x].
  unfold as_written; simpl in *.
  assert (Hopt : forall o : option string,
            In o [c; b; a; f] -> option_map utf8.written o = o).
  { intros [w|] Hin; [|reflexivity]. simpl.
    now rewrite (valid_written w (Hv w Hin)). }
  rewrite (Hopt c), (Hopt b), (Hopt a), (Hopt f); simpl; auto.
Qed.

(** Writing changes no field from set to unset or back. *)
Lemma present_as_written (r : PushRules) :
  present (as_written r) = present r.
Proof.
  unfold present, as_written; simpl.
  now destruct (CommitMessageRegex r), (BranchNameRegex r),
    (AuthorEmailRegex r), (FileNameRegex r).
Qed.

Lemma PushRules_round_trip (r : PushRules) (j : json) :
  well_formed PushRules_fields r -> created_at_reads_back r ->
  Marshal PushRules_fields r = inl j ->
  Unmarshal PushRules_fields j new_PushRules = (as_written r, None).
Proof.
  intros Hwf Htime.
  apply (Unmarshal_Marshal_as _ PushRules_fields new_PushRules r (as_written r) j
           PushRules_lawful).
  now apply PushRules_writes_as.
Qed.

(** C3, as the code has it.
    - A [PushRules] value is written with exactly the keys of its set
      fields (a pointer that is not nil, even to [false], [0] or [""]; an
      identifier that is not 0) and never with a [null].
    - Decoding an object into a new [PushRules] leaves every field that no
      key selects at its zero value, which is nil for the nine pointer
      fields and 0 for [id] and [project_id].
    - A value whose integers are Go [int]s and whose [created_at], if set,
      parses back from what it is written as decodes from its own encoding
      without error to the value as it is written: every field as it was,
      but for the bytes of a string that begin no UTF-8 sequence, each of
      which [encoding/json] writes as U+FFFD; the same fields are set
      before and after.
    - A value whose strings are valid UTF-8 is written as it is, so that it
      decodes from its own encoding unchanged.
    - Two such values with the same encoding are the same value: for the
      nine pointer fields absent and present-but-zero never meet.
    [id] and [project_id] are plain [int]s: 0 is all the absence they have. *)
Theorem PushRules_absent_or_zero :
  (forall r members,
     encode_fields PushRules_fields r = inl members ->
     keys members = present r /\
     forall key j, In (key, j) members -> j <> JNull) /\
  (forall members f,
     In f PushRules_fields -> lacks members (fname f) ->
     fget f (fst (Unmarshal PushRules_fields (JObject members) new_PushRules))
     = zero (fkind f)) /\
  (forall r j,
     well_formed PushRules_fields r -> created_at_reads_back r ->
     Marshal PushRules_fields r = inl j ->
     Unmarshal PushRules_fields j new_PushRules = (as_written r, None) /\
     present (as_written r) = present r) /\
  (forall r, valid_strings r -> as_written r = r) /\
  (forall r1 r2 j,
     well_formed PushRules_fields r1 -> well_formed PushRules_fields r2 ->
     created_at_reads_back r1 -> created_at_reads_back r2 ->
     valid_strings r1 -> valid_strings r2 ->
     Marshal PushRules_fields r1 = inl j ->
     Marshal PushRules_fields r2 = inl j ->
     r1 = r2).
Proof.
  split; [exact PushRules_written|].
  split; [|split; [|split; [exact valid_as_written|]]].
  - intros members f Hf Hlacks. simpl.
    rewrite (decode_object_untouched _ PushRules_fields new_PushRules f
               PushRules_lawful Hf members new_PushRules None Hlacks).
    exact (zero_fields PushRules_lawful f Hf).
  - intros r j Hwf Htime E. split; [|apply present_as_written].
    now apply PushRules_round_trip.
  - intros r1 r2 j Hwf1 Hwf2 Ht1 Ht2 Hv1 Hv2 E1 E2.
    pose proof (PushRules_round_trip r1 j Hwf1 Ht1 E1) as H1.
    pose proof (PushRules_round_trip r2 j Hwf2 Ht2 E2) as H2.
    rewrite (valid_as_written r1 Hv1) in H1.
    rewrite (valid_as_written r2 Hv2) in H2.
    congruence.
Qed.

End CodecFacts.

(** ** The four methods *)

Section ServiceFacts.

Context {rt : Runtime} {pkg : Package}.

Lemma new_calls_app (st : state) (w : World) (tr : list call) :
  new_calls st {| world := w; calls := calls st ++ tr |} = tr.
Proof.
  unfold new_calls; simpl.
  rewrite skipn_app, skipn_all, Nat.sub_diag. reflexivity.
Qed.

Lemma new_calls_same (st : state) : new_calls st st = [].
Proof. unfold new_calls. apply skipn_all. Qed.

(** The four methods have one shape: resolve, build the request, send it. *)
Lemma run_shape (op : operation) (pid : any) (options : list OptionFunc)
    (st : state) :
  run op pid options st =
  match parseID pid with
  | inr e => ((None, None, Some e), st)
  | inl project =>
      let u := push_rule_path project in
      let c := NewRequestCall (method op) u (body op) options in
      match NewRequest (method op) u (body op) options (world st) with
      | (inr e, w1) =>
          ((None, None, Some e), {| world := w1; calls := calls st ++ [c] |})
      | (inl req, w1) =>
          match Do req (target op) w1 with
          | ((after, resp, err), w2) =>
              ((returned op after err, resp, err),
               {| world := w2;
                  calls := calls st ++ [c; DoCall req (target op)] |})
          end
      end
  end.
Proof.
  destruct op; simpl;
    unfold GetPushRule, AddPushRule, EditPushRule, DeletePushRule,
      push_rule_path, bind, ret, client_NewRequest, client_Do;
    (destruct (parseID pid) as [project|e]; [|reflexivity]);
    simpl;
    match goal with |- context [NewRequest ?m ?u ?o ?os ?w] =>
      destruct (NewRequest m u o os w) as [[req|e] w1] end;
    try reflexivity;
    simpl;
    match goal with |- context [Do ?r ?v ?w] =>
      destruct (Do r v w) as [[[after resp] err] w2] end;
    simpl; rewrite <- app_assoc; simpl;
    try (destruct err); reflexivity.
Qed.

Lemma Delete_shape (pid : any) (options : list OptionFunc) (st : state) :
  DeletePushRule pid options st =
  ((response_of (fst (run Delete pid options st)),
    error_of (fst (run Delete pid options st))),
   snd (run Delete pid options st)).
Proof.
  unfold run. now destruct (DeletePushRule pid options st) as [[resp err] st'].
Qed.

Lemma run_first_call (op : operation) (pid : any) (project : string)
    (options : list OptionFunc) (st : state) :
  parseID pid = inl project ->
  hd_error (new_calls st (snd (run op pid options st))) =
  Some (NewRequestCall (method op) (push_rule_path project) (body op) options).
Proof.
  intros Hid. rewrite run_shape, Hid. cbv zeta.
  destruct (NewRequest _ _ _ _ _) as [[req|e] w1].
  - destruct (Do _ _ _) as [[[after resp] err] w2].
    simpl snd. now rewrite new_calls_app.
  - simpl snd. now rewrite new_calls_app.
Qed.

Lemma run_unresolved (op : operation) (pid : any) (e : error)
    (options : list OptionFunc) (st : state) :
  parseID pid = inr e -> run op pid options st = ((None, None, Some e), st).
Proof. intros Hid. now rewrite run_shape, Hid. Qed.

(** C1. When [parseID] resolves the reference to [project], each of the
    four methods asks [NewRequest] for the path
    [projects/<QueryEscape project>/push_rule].  A [/] between namespace
    and name is written [%2F]; a decimal number is left as it is. *)
Theorem request_path (pid : any) (project : string) (add edit : option ptr)
    (options : list OptionFunc) (st : state) :
  parseID pid = inl project ->
  let u := "projects/" ++ url.QueryEscape project ++ "/push_rule" in
  hd_error (new_calls st (snd (GetPushRule pid options st))) =
    Some (NewRequestCall "GET" u NoOpt options) /\
  hd_error (new_calls st (snd (AddPushRule pid add options st))) =
    Some (NewRequestCall "POST" u (AddOpt add) options) /\
  hd_error (new_calls st (snd (EditPushRule pid edit options st))) =
    Some (NewRequestCall "PUT" u (EditOpt edit) options) /\
  hd_error (new_calls st (snd (DeletePushRule pid options st))) =
    Some (NewRequestCall "DELETE" u NoOpt options) /\
  (forall ns name, project = ns ++ "/" ++ name ->
     url.QueryEscape project =
     url.QueryEscape ns ++ "%2F" ++ url.QueryEscape name) /\
  (url.all_bytes (fun c => url.is_digit c || Ascii.eqb c "-") project = true ->
   url.QueryEscape project = project).
Proof.
  intros Hid u.
  split; [exact (run_first_call Get pid project options st Hid)|].
  split; [exact (run_first_call (Add add) pid project options st Hid)|].
  split; [exact (run_first_call (Edit edit) pid project options st Hid)|].
  split.
  - rewrite Delete_shape. simpl snd.
    exact (run_first_call Delete pid project options st Hid).
  - split; [|apply digits_escape].
    intros ns name ->. now rewrite !QueryEscape_app.
Qed.

(** C4. When [parseID] fails, each of the four methods returns its error
    and nothing else, and leaves the state as it found it: no call to
    [NewRequest], no call to [Do]. *)
Theorem unresolved_reference_no_call (pid : any) (e : error)
    (add edit : option ptr) (options : list OptionFunc) (st : state) :
  parseID pid = inr e ->
  GetPushRule pid options st = ((None, None, Some e), st) /\
  AddPushRule pid add options st = ((None, None, Some e), st) /\
  EditPushRule pid edit options st = ((None, None, Some e), st) /\
  DeletePushRule pid options st = ((None, Some e), st) /\
  (forall op, new_calls st (snd (run op pid options st)) = []).
Proof.
  intros Hid.
  split; [exact (run_unresolved Get pid e options st Hid)|].
  split; [exact (run_unresolved (Add add) pid e options st Hid)|].
  split; [exact (run_unresolved (Edit edit) pid e options st Hid)|].
  split.
  - now rewrite Delete_shape, (run_unresolved Delete pid e options st Hid).
  - intros op. rewrite (run_unresolved op pid e options st Hid).
    apply new_calls_same.
Qed.

(** C6. For a reference that [parseID] resolves, the four methods ask for
    one and the same path, whatever the state they are called in; they
    differ in the method (GET, POST, PUT, DELETE) and in what is given as
    the body (nothing for GET and DELETE, the options for POST and PUT). *)
Theorem same_path_four_methods (pid : any) (project : string)
    (add edit : option ptr) (options : list OptionFunc)
    (st1 st2 st3 st4 : state) :
  parseID pid = inl project ->
  exists u,
    hd_error (new_calls st1 (snd (GetPushRule pid options st1))) =
      Some (NewRequestCall "GET" u NoOpt options) /\
    hd_error (new_calls st2 (snd (AddPushRule pid add options st2))) =
      Some (NewRequestCall "POST" u (AddOpt add) options) /\
    hd_error (new_calls st3 (snd (EditPushRule pid edit options st3))) =
      Some (NewRequestCall "PUT" u (EditOpt edit) options) /\
    hd_error (new_calls st4 (snd (DeletePushRule pid options st4))) =
      Some (NewRequestCall "DELETE" u NoOpt options).
Proof.
  intros Hid. exists (push_rule_path project).
  split; [exact (run_first_call Get pid project options st1 Hid)|].
  split; [exact (run_first_call (Add add) pid project options st2 Hid)|].
  split; [exact (run_first_call (Edit edit) pid project options st3 Hid)|].
  rewrite Delete_shape. simpl snd.
  exact (run_first_call Delete pid project options st4 Hid).
Qed.

(** What a method does once the reference is resolved and the request is
    built: one [Do], whose response and error are the method's. *)
Lemma run_sent (op : operation) (pid : any) (project : string)
    (options : list OptionFunc) (st : state) (req : Request) (w1 w2 : World)
    (after : option PushRules) (resp : option Response)
    (err : option error) :
  parseID pid = inl project ->
  NewRequest (method op) (push_rule_path project) (body op) options (world st)
    = (inl req, w1) ->
  Do req (target op) w1 = ((after, resp, err), w2) ->
  run op pid options st =
  ((returned op after err, resp, err),
   {| world := w2;
      calls := calls st ++
               [NewRequestCall (method op) (push_rule_path project) (body op) options;
                DoCall req (target op)] |}).
Proof.
  intros Hid Hreq Hdo. rewrite run_shape, Hid. cbv zeta.
  now rewrite Hreq, Hdo.
Qed.

Lemma run_not_built (op : operation) (pid : any) (project : string)
    (options : list OptionFunc) (st : state) (e : error) (w1 : World) :
  parseID pid = inl project ->
  NewRequest (method op) (push_rule_path project) (body op) options (world st)
    = (inr e, w1) ->
  run op pid options st =
  ((None, None, Some e),
   {| world := w1;
      calls := calls st ++
               [NewRequestCall (method op) (push_rule_path project) (body op) options] |}).
Proof.
  intros Hid Hreq. rewrite run_shape, Hid. cbv zeta. now rewrite Hreq.
Qed.

Lemma run_at_most_one_Do (op : operation) (pid : any)
    (options : list OptionFunc) (st : state) :
  (count_Do (new_calls st (snd (run op pid options st))) <= 1)%nat.
Proof.
  rewrite run_shape. destruct (parseID pid) as [project|e].
  - cbv zeta. destruct (NewRequest _ _ _ _ _) as [[req|e] w1].
    + destruct (Do _ _ _) as [[[after resp] err] w2].
      simpl snd. rewrite new_calls_app. unfold count_Do; simpl. lia.
    + simpl snd. rewrite new_calls_app. unfold count_Do; simpl. lia.
  - simpl snd. rewrite new_calls_same. unfold count_Do; simpl. lia.
Qed.

(** C7. [DeletePushRule] called twice in a row with the same reference,
    with a client that builds both requests and whose [Do] reports no error
    either time: both calls return no error, each with the response its own
    [Do] gave; the client was asked four times in all (nothing is
    remembered, nothing is skipped), and what a call returns depends on the
    world it runs in, not on the calls made before. *)
Theorem delete_twice (pid : any) (project : string) (options : list OptionFunc)
    (st : state) (req1 req2 : Request) (w1 w2 w3 w4 : World)
    (after1 after2 : option PushRules) (resp1 resp2 : option Response) :
  parseID pid = inl project ->
  NewRequest "DELETE" (push_rule_path project) NoOpt options (world st)
    = (inl req1, w1) ->
  Do req1 None w1 = ((after1, resp1, None), w2) ->
  NewRequest "DELETE" (push_rule_path project) NoOpt options w2
    = (inl req2, w3) ->
  Do req2 None w3 = ((after2, resp2, None), w4) ->
  let first := DeletePushRule pid options st in
  let second := DeletePushRule pid options (snd first) in
  fst first = (resp1, None) /\
  fst second = (resp2, None) /\
  world (snd second) = w4 /\
  new_calls st (snd second) =
    [NewRequestCall "DELETE" (push_rule_path project) NoOpt options;
     DoCall req1 None;
     NewRequestCall "DELETE" (push_rule_path project) NoOpt options;
     DoCall req2 None] /\
  (forall st', world st' = world st ->
     fst (DeletePushRule pid options st') = fst first /\
     world (snd (DeletePushRule pid options st')) = world (snd first)).
Proof.
  intros Hid Hreq1 Hdo1 Hreq2 Hdo2 first second.
  assert (E1 : first =
    ((resp1, None),
     {| world := w2;
        calls := calls st ++
          [NewRequestCall "DELETE" (push_rule_path project) NoOpt options;
           DoCall req1 None] |})).
  { unfold first. rewrite Delete_shape.
    now rewrite (run_sent Delete pid project options st req1 w1 w2
                   after1 resp1 None Hid Hreq1 Hdo1). }
  assert (E2 : second =
    ((resp2, None),
     {| world := w4;
        calls := (calls st ++
          [NewRequestCall "DELETE" (push_rule_path project) NoOpt options;
           DoCall req1 None]) ++
          [NewRequestCall "DELETE" (push_rule_path project) NoOpt options;
           DoCall req2 None] |})).
  { unfold second. rewrite E1. simpl snd. rewrite Delete_shape.
    now rewrite (run_sent Delete pid project options
                   {| world := w2;
                      calls := calls st ++
                        [NewRequestCall "DELETE" (push_rule_path project) NoOpt options;
                         DoCall req1 None] |}
                   req2 w3 w4 after2 resp2 None Hid Hreq2 Hdo2). }
  rewrite E1, E2. simpl fst; simpl snd.
  split; [reflexivity|]. split; [reflexivity|]. split; [reflexivity|].
  split.
  - rewrite <- app_assoc. now rewrite new_calls_app.
  - intros st' Hworld. rewrite <- Hworld in Hreq1.
    rewrite Delete_shape.
    now rewrite (run_sent Delete pid project options st' req1 w1 w2
                   after1 resp1 None Hid Hreq1 Hdo1).
Qed.

(** C8. Every error is handed to the caller as it arose, at once.  For
    each of the four methods: an error of [parseID] is returned with no
    call made; an error of [NewRequest] is returned with no [Do]; once the
    request is built there is exactly one [Do], and its response and its
    error (of the transport or of the decoding, or none) are what the
    method returns.  No run has more than one [Do].  [DeletePushRule]
    returns the response and the error of [Do] whatever they are. *)
Theorem errors_pass_through (op : operation) (pid : any)
    (options : list OptionFunc) (st : state) :
  let out := run op pid options st in
  let tr := new_calls st (snd out) in
  (count_Do tr <= 1)%nat /\
  (forall e, parseID pid = inr e -> out = ((None, None, Some e), st)) /\
  (forall project e w1,
     parseID pid = inl project ->
     NewRequest (method op) (push_rule_path project) (body op) options (world st)
       = (inr e, w1) ->
     fst out = (None, None, Some e) /\
     count_Do tr = 0%nat /\
     world (snd out) = w1) /\
  (forall project req w1 after resp err w2,
     parseID pid = inl project ->
     NewRequest (method op) (push_rule_path project) (body op) options (world st)
       = (inl req, w1) ->
     Do req (target op) w1 = ((after, resp, err), w2) ->
     response_of (fst out) = resp /\
     error_of (fst out) = err /\
     tr = [NewRequestCall (method op) (push_rule_path project) (body op) options;
           DoCall req (target op)] /\
     count_Do tr = 1%nat /\
     world (snd out) = w2) /\
  DeletePushRule pid options st =
    ((response_of (fst (run Delete pid options st)),
      error_of (fst (run Delete pid options st))),
     snd (run Delete pid options st)).
Proof.
  intros out tr. subst tr out.
  split; [apply run_at_most_one_Do|].
  split; [intros e Hid; now apply run_unresolved|].
  split; [|split; [|apply Delete_shape]].
  - intros project e w1 Hid Hreq.
    rewrite (run_not_built op pid project options st e w1 Hid Hreq).
    simpl fst; simpl snd. now rewrite new_calls_app.
  - intros project req w1 after resp err w2 Hid Hreq Hdo.
    rewrite (run_sent op pid project options st req w1 w2 after resp err
               Hid Hreq Hdo).
    simpl fst; simpl snd. now rewrite new_calls_app.
Qed.

Lemma run_error_no_rules (op : operation) (pid : any)
    (options : list OptionFunc) (st : state) :
  error_of (fst (run op pid options st)) <> None ->
  rules_of (fst (run op pid options st)) = None.
Proof.
  rewrite run_shape. destruct (parseID pid) as [project|e]; [|reflexivity].
  cbv zeta. destruct (NewRequest _ _ _ _ _) as [[req|e] w1]; [|reflexivity].
  destruct (Do _ _ _) as [[[after resp] err] w2].
  unfold error_of, rules_of; simpl. intros Herr.
  destruct err as [e|]; [|contradiction].
  now destruct op.
Qed.

Lemma run_success_rules (op : operation) (pid : any)
    (options : list OptionFunc) (st : state) :
  op <> Delete ->
  error_of (fst (run op pid options st)) = None ->
  rules_of (fst (run op pid options st)) <> None.
Proof.
  intros Hop. rewrite run_shape.
  destruct (parseID pid) as [project|e]; [|discriminate].
  cbv zeta. destruct (NewRequest _ _ _ _ _) as [[req|e] w1]; [|discriminate].
  destruct (Do _ _ _) as [[[after resp] err] w2].
  unfold error_of, rules_of; simpl. intros ->.
  destruct op; try discriminate. contradiction.
Qed.

(** C9. Whenever [GetPushRule], [AddPushRule] or [EditPushRule] returns
    an error, the [*PushRules] it returns is nil, whatever [Do] had already
    written through the pointer; without an error it is never nil.  When
    the error is [Do]'s, the response that came with it is returned as
    well. *)
Theorem no_rules_with_error (pid : any) (add edit : option ptr)
    (options : list OptionFunc) (st : state) :
  (error_of (fst (GetPushRule pid options st)) <> None ->
   rules_of (fst (GetPushRule pid options st)) = None) /\
  (error_of (fst (AddPushRule pid add options st)) <> None ->
   rules_of (fst (AddPushRule pid add options st)) = None) /\
  (error_of (fst (EditPushRule pid edit options st)) <> None ->
   rules_of (fst (EditPushRule pid edit options st)) = None) /\
  (error_of (fst (GetPushRule pid options st)) = None ->
   rules_of (fst (GetPushRule pid options st)) <> None) /\
  (error_of (fst (AddPushRule pid add options st)) = None ->
   rules_of (fst (AddPushRule pid add options st)) <> None) /\
  (error_of (fst (EditPushRule pid edit options st)) = None ->
   rules_of (fst (EditPushRule pid edit options st)) <> None) /\
  (forall op project req w1 after resp e w2,
     op <> Delete ->
     parseID pid = inl project ->
     NewRequest (method op) (push_rule_path project) (body op) options (world st)
       = (inl req, w1) ->
     Do req (target op) w1 = ((after, resp, Some e), w2) ->
     fst (run op pid options st) = (None, resp, Some e)).
Proof.
  split; [exact (run_error_no_rules Get pid options st)|].
  split; [exact (run_error_no_rules (Add add) pid options st)|].
  split; [exact (run_error_no_rules (Edit edit) pid options st)|].
  split; [apply (run_success_rules Get); discriminate|].
  split; [apply (run_success_rules (Add add)); discriminate|].
  split; [apply (run_success_rules (Edit edit)); discriminate|].
  intros op project req w1 after resp e w2 Hop Hid Hreq Hdo.
  rewrite (run_sent op pid project options st req w1 w2 after resp (Some e)
             Hid Hreq Hdo).
  simpl. now destruct op.
Qed.

Lemma run_frame (l : ptr) (op : operation) (pid : any)
    (options : list OptionFunc) (st : state) :
  (forall m u o os w, deref (snd (NewRequest m u o os w)) l = deref w l) ->
  (forall req v w, deref (snd (Do req v w)) l = deref w l) ->
  deref (world (snd (run op pid options st))) l = deref (world st) l.
Proof.
  intros Hreq Hdo. rewrite run_shape.
  destruct (parseID pid) as [project|e]; [|reflexivity]. cbv zeta.
  pose proof (Hreq (method op) (push_rule_path project) (body op) options
                (world st)) as H1.
  destruct (NewRequest _ _ _ _ _) as [[req|e] w1]; simpl in H1; [|exact H1].
  pose proof (Hdo req (target op) w1) as H2.
  destruct (Do _ _ _) as [[[after resp] err] w2]; simpl in *. congruence.
Qed.

(** C10. [AddPushRule] and [EditPushRule] hand to [NewRequest] the very
    pointer they were given, as the first thing they ask of the client, and
    write nothing themselves: if [NewRequest] and [Do] leave the struct at
    an address as it was, so does the whole call. *)
Theorem options_left_alone (l : ptr) (opt : option ptr) (pid : any)
    (options : list OptionFunc) (st : state) :
  (forall m u o os w, deref (snd (NewRequest m u o os w)) l = deref w l) ->
  (forall req v w, deref (snd (Do req v w)) l = deref w l) ->
  deref (world (snd (AddPushRule pid opt options st))) l = deref (world st) l /\
  deref (world (snd (EditPushRule pid opt options st))) l = deref (world st) l /\
  (forall project, parseID pid = inl project ->
     hd_error (new_calls st (snd (AddPushRule pid opt options st))) =
       Some (NewRequestCall "POST" (push_rule_path project) (AddOpt opt) options) /\
     hd_error (new_calls st (snd (EditPushRule pid opt options st))) =
       Some (NewRequestCall "PUT" (push_rule_path project) (EditOpt opt) options)).
Proof.
  intros Hreq Hdo.
  split; [exact (run_frame l (Add opt) pid options st Hreq Hdo)|].
  split; [exact (run_frame l (Edit opt) pid options st Hreq Hdo)|].
  intros project Hid. split.
  - exact (run_first_call (Add opt) pid project options st Hid).
  - exact (run_first_call (Edit opt) pid project options st Hid).
Qed.

End ServiceFacts.

(** ** The theorems at concrete calls *)

(** [GetPushRule(42)] against a server that has rules for project 42. *)
Example get_42 :
  Demo.GetPushRule (AnyInt 42) [] (Demo.start [(200, Demo.reply_42)]) =
  ((Some Demo.rules_42, Some 200, None),
   @Build_state Demo.runtime Demo.package (Demo.serving [])
     [Demo.requested "GET" "projects/42/push_rule" NoOpt [];
      Demo.sent ("GET", "projects/42/push_rule") (Some Demo.new)]).
Proof. reflexivity. Qed.

(** [AddPushRule("group/proj", &opt)] with only [PreventSecrets] set. *)
Example add_prevent_secrets :
  hd_error (calls (snd (Demo.AddPushRule (AnyString "group/proj") (Some 0%nat) []
                          (Demo.start [(201, Demo.reply_42)])))) =
    Some (Demo.requested "POST" "projects/group%2Fproj/push_rule"
            (AddOpt (Some 0%nat)) []) /\
  Demo.marshal_options
    (Demo.options_at (Demo.serving [(201, Demo.reply_42)]) 0%nat) =
    inl (JObject [("prevent_secrets", JBool true)]).
Proof. split; reflexivity. Qed.

(** C1 at [AddPushRule("group/proj", opt)] and [GetPushRule(42)]. *)
Lemma request_path_witness :
  parseID_spec (AnyString "group/proj") = inl "group/proj" /\
  parseID_spec (AnyInt 42) = inl "42" /\
  hd_error
    (new_calls (Demo.start [])
       (snd (Demo.AddPushRule (AnyString "group/proj") (Some 0%nat) []
               (Demo.start [])))) =
    Some (Demo.requested "POST" "projects/group%2Fproj/push_rule"
            (AddOpt (Some 0%nat)) []) /\
  hd_error
    (new_calls (Demo.start [])
       (snd (Demo.GetPushRule (AnyInt 42) [] (Demo.start [])))) =
    Some (Demo.requested "GET" "projects/42/push_rule" NoOpt []).
Proof.
  split; [reflexivity|]. split; [reflexivity|]. split.
  - exact (proj1 (proj2
      (@request_path Demo.runtime Demo.package
         (AnyString "group/proj") "group/proj" (Some 0%nat) None []
         (Demo.start []) eq_refl))).
  - exact (proj1
      (@request_path Demo.runtime Demo.package
         (AnyInt 42) "42" None None [] (Demo.start []) eq_refl)).
Defined.

(** C4 at a reference of another type, with a server ready to answer. *)
Lemma unresolved_reference_no_call_witness :
  parseID_spec (AnyOther "bool") = inr "invalid ID type" /\
  Demo.GetPushRule (AnyOther "bool") [] (Demo.start [(200, Demo.reply_42)]) =
    ((None, None, Some "invalid ID type"), Demo.start [(200, Demo.reply_42)]) /\
  Demo.DeletePushRule (AnyOther "bool") [] (Demo.start [(200, Demo.reply_42)]) =
    ((None, Some "invalid ID type"), Demo.start [(200, Demo.reply_42)]).
Proof.
  split; [reflexivity|].
  pose proof
    (@unresolved_reference_no_call Demo.runtime Demo.package
       (AnyOther "bool") "invalid ID type" None None []
       (Demo.start [(200, Demo.reply_42)]) eq_refl) as H.
  split; [exact (proj1 H) | exact (proj1 (proj2 (proj2 (proj2 H))))].
Defined.

(** C6 at ["group/proj"]. *)
Lemma same_path_four_methods_witness :
  parseID_spec (AnyString "group/proj") = inl "group/proj" /\
  exists u,
    hd_error
      (new_calls (Demo.start [])
         (snd (Demo.GetPushRule (AnyString "group/proj") [] (Demo.start [])))) =
      Some (Demo.requested "GET" u NoOpt []) /\
    hd_error
      (new_calls (Demo.start [])
         (snd (Demo.AddPushRule (AnyString "group/proj") (Some 0%nat) []
                 (Demo.start [])))) =
      Some (Demo.requested "POST" u (AddOpt (Some 0%nat)) []) /\
    hd_error
      (new_calls (Demo.start [])
         (snd (Demo.EditPushRule (AnyString "group/proj") (Some 1%nat) []
                 (Demo.start [])))) =
      Some (Demo.requested "PUT" u (EditOpt (Some 1%nat)) []) /\
    hd_error
      (new_calls (Demo.start [])
         (snd (Demo.DeletePushRule (AnyString "group/proj") [] (Demo.start [])))) =
      Some (Demo.requested "DELETE" u NoOpt []).
Proof.
  split; [reflexivity|].
  exact (@same_path_four_methods Demo.runtime Demo.package
           (AnyString "group/proj") "group/proj" (Some 0%nat) (Some 1%nat) []
           (Demo.start []) (Demo.start []) (Demo.start []) (Demo.start [])
           eq_refl).
Defined.

(** C7 at project 42, with a server that answers 204 twice. *)
Lemma delete_twice_witness :
  let answers := [(204, JNull); (204, JNull)] in
  Demo.do ("DELETE", "projects/42/push_rule") None (Demo.serving answers) =
    ((None, Some 204, None), Demo.serving [(204, JNull)]) /\
  Demo.do ("DELETE", "projects/42/push_rule") None (Demo.serving [(204, JNull)]) =
    ((None, Some 204, None), Demo.serving []) /\
  fst (Demo.DeletePushRule (AnyInt 42) [] (Demo.start answers)) =
    (Some 204, None) /\
  fst (Demo.DeletePushRule (AnyInt 42) []
         (snd (Demo.DeletePushRule (AnyInt 42) [] (Demo.start answers)))) =
    (Some 204, None).
Proof.
  split; [reflexivity|]. split; [reflexivity|].
  pose proof
    (@delete_twice Demo.runtime Demo.package
       (AnyInt 42) "42" []
       (Demo.start [(204, JNull); (204, JNull)])
       ("DELETE", "projects/42/push_rule") ("DELETE", "projects/42/push_rule")
       (Demo.serving [(204, JNull); (204, JNull)])
       (Demo.serving [(204, JNull)])
       (Demo.serving [(204, JNull)])
       (Demo.serving [])
       None None (Some 204) (Some 204)
       eq_refl eq_refl eq_refl eq_refl eq_refl) as H.
  split; [exact (proj1 H) | exact (proj1 (proj2 H))].
Defined.

(** C8 at [DeletePushRule(42)] with a server that answers 404: the
    response and the error of [Do] come back as they are, after one [Do]. *)
Lemma errors_pass_through_witness :
  let answers := [(404, JObject [("message", JString "404 Not found")])] in
  Demo.do ("DELETE", "projects/42/push_rule") None (Demo.serving answers) =
    ((None, Some 404, Some "status"), Demo.serving []) /\
  fst (Demo.run Delete (AnyInt 42) [] (Demo.start answers)) =
    (None, Some 404, Some "status") /\
  count_Do
    (new_calls (Demo.start answers)
       (snd (Demo.run Delete (AnyInt 42) [] (Demo.start answers)))) = 1%nat.
Proof.
  pose proof
    (proj1 (proj2 (proj2 (proj2
       (@errors_pass_through Demo.runtime Demo.package
          Delete (AnyInt 42) []
          (Demo.start [(404, JObject [("message", JString "404 Not found")])])))))
       "42" ("DELETE", "projects/42/push_rule")
       (Demo.serving [(404, JObject [("message", JString "404 Not found")])])
       None (Some 404) (Some "status") (Demo.serving [])
       eq_refl eq_refl eq_refl) as H.
  split; [reflexivity|]. split; [reflexivity|].
  exact (proj1 (proj2 (proj2 (proj2 H)))).
Defined.

(** C9 at [GetPushRule(42)] with a reply that decodes in part: [Do] has
    written the [id] through the pointer when it reports the error; the
    rules are dropped, the response is kept. *)
Lemma no_rules_with_error_witness :
  let answers := [(200, Demo.reply_bad)] in
  fst (Demo.do ("GET", "projects/42/push_rule") (Some Demo.new)
         (Demo.serving answers)) =
    (Some (set_DenyDeleteTag (Some false) (set_ID 1 Demo.new)),
     Some 200, Some "json: cannot unmarshal") /\
  error_of (fst (Demo.GetPushRule (AnyInt 42) [] (Demo.start answers))) =
    Some "json: cannot unmarshal" /\
  response_of (fst (Demo.GetPushRule (AnyInt 42) [] (Demo.start answers))) =
    Some 200 /\
  rules_of (fst (Demo.GetPushRule (AnyInt 42) [] (Demo.start answers))) = None.
Proof.
  split; [reflexivity|]. split; [reflexivity|]. split; [reflexivity|].
  apply (proj1
    (@no_rules_with_error Demo.runtime Demo.package
       (AnyInt 42) None None [] (Demo.start [(200, Demo.reply_bad)]))).
  discriminate.
Defined.

(** C10 at [AddPushRule("group/proj", &opt)], [opt] at address 0. *)
Lemma options_left_alone_witness :
  (forall m u o os w,
     Demo.options_at (snd (Demo.new_request m u o os w)) 0%nat =
     Demo.options_at w 0%nat) /\
  (forall req v w,
     Demo.options_at (snd (Demo.do req v w)) 0%nat = Demo.options_at w 0%nat) /\
  Demo.options_at
    (world (snd (Demo.AddPushRule (AnyString "group/proj") (Some 0%nat) []
                   (Demo.start [(201, Demo.reply_42)])))) 0%nat =
  Demo.only_secrets.
Proof.
  assert (Hreq : forall m u o os w,
     Demo.options_at (snd (Demo.new_request m u o os w)) 0%nat =
     Demo.options_at w 0%nat).
  { intros m u o os w. unfold Demo.new_request.
    destruct (Demo.first_failure os); reflexivity. }
  assert (Hdo : forall req v w,
     Demo.options_at (snd (Demo.do req v w)) 0%nat = Demo.options_at w 0%nat).
  { intros req v w. unfold Demo.do.
    destruct (Demo.script w) as [|[status reply] rest]; [reflexivity|].
    destruct ((200 <=? status) && (status <? 300)); [|reflexivity].
    destruct v as [p|]; [|reflexivity].
    now destruct (Demo.unmarshal_into reply p). }
  split; [exact Hreq|]. split; [exact Hdo|].
  exact (proj1
    (@options_left_alone Demo.runtime Demo.package
       0%nat (Some 0%nat) (AnyString "group/proj") []
       (Demo.start [(201, Demo.reply_42)]) Hreq Hdo)).
Defined.

(** C3 as stated does not hold of the identifiers.  A response with
    ["id":0] and ["project_id":0] decodes to the very value that the empty
    object decodes to, [ID] and [PID] being 0 in both, and that value is
    written back without either key: for these two fields present-with-zero
    comes back as absent. *)
Lemma zero_identifier_is_absent :
  Demo.unmarshal (JObject [("id", JInt 0); ("project_id", JInt 0)]) =
    (Demo.new, None) /\
  Demo.unmarshal (JObject []) = (Demo.new, None) /\
  ID (fst (Demo.unmarshal (JObject []))) = 0 /\
  PID (fst (Demo.unmarshal (JObject []))) = 0 /\
  Demo.marshal
    (fst (Demo.unmarshal (JObject [("id", JInt 0); ("project_id", JInt 0)]))) =
    inl (JObject []).
Proof. repeat split. Qed.

Lemma deny_false_well_formed :
  well_formed Demo.fields (set_DenyDeleteTag (Some false) Demo.new).
Proof. intros f Hf. each_field Hf; reflexivity. Qed.

Lemma deny_false_no_time :
  @created_at_reads_back Demo.runtime (set_DenyDeleteTag (Some false) Demo.new).
Proof. intros t s H. discriminate. Qed.

(** C3, as the code has it, at [{"deny_delete_tag":false}]: the object is
    what the value with [DenyDeleteTag] pointing to [false] is written as,
    it decodes to that value, and that value is not the new one, which the
    empty object decodes to. *)
Lemma PushRules_absent_or_zero_witness :
  well_formed Demo.fields (set_DenyDeleteTag (Some false) Demo.new) /\
  @created_at_reads_back Demo.runtime (set_DenyDeleteTag (Some false) Demo.new) /\
  Demo.marshal (set_DenyDeleteTag (Some false) Demo.new) =
    inl (JObject [("deny_delete_tag", JBool false)]) /\
  Demo.unmarshal (JObject [("deny_delete_tag", JBool false)]) =
    (set_DenyDeleteTag (Some false) Demo.new, None) /\
  DenyDeleteTag (fst (Demo.unmarshal (JObject []))) = None.
Proof.
  split; [exact deny_false_well_formed|]. split; [exact deny_false_no_time|].
  split; [reflexivity|]. split; [|reflexivity].
  exact (proj1 (proj1 (proj2 (proj2 (@PushRules_absent_or_zero Demo.runtime)))
    (set_DenyDeleteTag (Some false) Demo.new)
    (JObject [("deny_delete_tag", JBool false)])
    deny_false_well_formed deny_false_no_time eq_refl)).
Defined.

(** Two strings that are one byte each, [0xFF] and [0xFE], neither of
    which is UTF-8: both are written as U+FFFD, and that is what is read
    back. *)
Example invalid_bytes_meet :
  utf8.written (String (ascii_of_N 0xFF) "") = utf8.replacement /\
  utf8.written (String (ascii_of_N 0xFE) "") = utf8.replacement /\
  utf8.ValidString (String (ascii_of_N 0xFF) "") = false /\
  utf8.ValidString utf8.replacement = true /\
  Demo.marshal
    (set_CommitMessageRegex (Some (String (ascii_of_N 0xFF) "")) Demo.new) =
    inl (JObject [("commit_message_regex", JString utf8.replacement)]) /\
  Demo.marshal
    (set_CommitMessageRegex (Some (String (ascii_of_N 0xFE) "")) Demo.new) =
    inl (JObject [("commit_message_regex", JString utf8.replacement)]) /\
  Demo.unmarshal
    (JObject [("commit_message_regex", JString utf8.replacement)]) =
    (set_CommitMessageRegex (Some utf8.replacement) Demo.new, None).
Proof. repeat split. Qed.

(** * Further properties *)

(** ** The path *)

Lemma byte_of_bounded (c : ascii) : 0 <= url.byte_of c < 256.
Proof.
  unfold url.byte_of. pose proof (N_ascii_bounded c). lia.
Qed.

Lemma byte_of_inj (c1 c2 : ascii) : url.byte_of c1 = url.byte_of c2 -> c1 = c2.
Proof.
  unfold url.byte_of. intros H. apply N2Z.inj in H.
  rewrite <- (ascii_N_embedding c1), <- (ascii_N_embedding c2). now rewrite H.
Qed.

Lemma hex_digit_nat_inj (a b : nat) :
  (a < 16)%nat -> (b < 16)%nat ->
  url.hex_digit (Z.of_nat a) = url.hex_digit (Z.of_nat b) -> a = b.
Proof.
  unfold url.hex_digit. rewrite !Nat2Z.id. intros Ha Hb.
  do 16 (destruct a as [|a];
         [do 16 (destruct b as [|b];
                 [first [reflexivity | discriminate]|]); lia|]).
  lia.
Qed.

Lemma hex_digit_inj (i j : Z) :
  0 <= i < 16 -> 0 <= j < 16 -> url.hex_digit i = url.hex_digit j -> i = j.
Proof.
  intros Hi Hj H.
  rewrite <- (Z2Nat.id i), <- (Z2Nat.id j) in H |- * by lia.
  f_equal. apply hex_digit_nat_inj; [lia | lia | exact H].
Qed.

(** The two hex digits of [%XX] name one byte. *)
Lemma hex_pair_inj (c1 c2 : ascii) :
  url.hex_digit (Z.shiftr (url.byte_of c1) 4) =
    url.hex_digit (Z.shiftr (url.byte_of c2) 4) ->
  url.hex_digit (Z.land (url.byte_of c1) 15) =
    url.hex_digit (Z.land (url.byte_of c2) 15) ->
  c1 = c2.
Proof.
  pose proof (byte_of_bounded c1) as B1. pose proof (byte_of_bounded c2) as B2.
  change 15 with (Z.ones 4).
  rewrite !Z.shiftr_div_pow2, !Z.land_ones by lia.
  change (2 ^ 4) with 16. intros Hhi Hlo.
  apply hex_digit_inj in Hhi;
    [| split; [apply Z.div_pos; lia | apply Z.div_lt_upper_bound; lia] ..].
  apply hex_digit_inj in Hlo; [| apply Z.mod_pos_bound; lia ..].
  apply byte_of_inj.
  rewrite (Z.div_mod (url.byte_of c1) 16), (Z.div_mod (url.byte_of c2) 16) by lia.
  now rewrite Hhi, Hlo.
Qed.

Lemma escape_bytes_inj (s1 : string) :
  forall s2, url.escape_bytes s1 = url.escape_bytes s2 -> s1 = s2.
Proof.
  induction s1 as [|c1 s1 IH]; intros [|c2 s2]; simpl.
  - reflexivity.
  - destruct (Ascii.eqb c2 " "); [|destruct (url.shouldEscape c2)]; discriminate.
  - destruct (Ascii.eqb c1 " "); [|destruct (url.shouldEscape c1)]; discriminate.
  - destruct (Ascii.eqb c1 " ") eqn:S1; destruct (Ascii.eqb c2 " ") eqn:S2.
    + apply Ascii.eqb_eq in S1, S2; subst. intros E. inversion E.
      f_equal. now apply IH.
    + destruct (url.shouldEscape c2) eqn:E2; intros E; inversion E; subst.
      discriminate.
    + destruct (url.shouldEscape c1) eqn:E1; intros E; inversion E; subst.
      discriminate.
    + destruct (url.shouldEscape c1) eqn:E1; destruct (url.shouldEscape c2) eqn:E2;
        intros E; inversion E; subst; try discriminate.
      * f_equal; [now apply hex_pair_inj | now apply IH].
      * f_equal. now apply IH.
Qed.

Lemma QueryEscape_inj (s1 s2 : string) :
  url.QueryEscape s1 = url.QueryEscape s2 -> s1 = s2.
Proof. rewrite !QueryEscape_bytes. apply escape_bytes_inj. Qed.

Lemma append_inv_tail (t a : string) : forall b, a ++ t = b ++ t -> a = b.
Proof.
  assert (Hlen : forall x y, String.length (x ++ y) =
                             (String.length x + String.length y)%nat).
  { induction x as [|c x IHx]; intros y; simpl; [reflexivity|]. now rewrite IHx. }
  induction a as [|c a IH]; intros [|d b]; simpl; intros E.
  - reflexivity.
  - exfalso. apply (f_equal String.length) in E. simpl in E.
    rewrite Hlen in E. lia.
  - exfalso. apply (f_equal String.length) in E. simpl in E.
    rewrite Hlen in E. lia.
  - inversion E; subst. f_equal. now apply IH.
Qed.

Lemma push_rule_path_inj (p1 p2 : string) :
  push_rule_path p1 = push_rule_path p2 -> p1 = p2.
Proof.
  unfold push_rule_path. simpl. intros E. inversion E as [E'].
  apply append_inv_tail in E'. now apply QueryEscape_inj.
Qed.

Lemma hex_digit_segment (i : Z) : segment_byte (url.hex_digit i) = true.
Proof.
  unfold url.hex_digit. generalize (Z.to_nat i) as n. intros n.
  do 16 (destruct n as [|n]; [reflexivity|]).
  reflexivity.
Qed.

Lemma escape_bytes_segment (s : string) :
  url.all_bytes segment_byte (url.escape_bytes s) = true.
Proof.
  induction s as [|c s IH]; simpl; [reflexivity|].
  destruct (Ascii.eqb c " "); [exact IH|].
  destruct (url.shouldEscape c) eqn:E; simpl.
  - now rewrite !hex_digit_segment, IH.
  - unfold segment_byte at 1, url.unreserved. now rewrite E, IH.
Qed.

Lemma count_byte_app (c : ascii) (a b : string) :
  count_byte c (a ++ b) = (count_byte c a + count_byte c b)%nat.
Proof.
  induction a as [|d a IH]; simpl; [reflexivity|]. rewrite IH. lia.
Qed.

Lemma count_byte_none (p : ascii -> bool) (c : ascii) (s : string) :
  p c = false -> url.all_bytes p s = true -> count_byte c s = 0%nat.
Proof.
  intros Hc. induction s as [|d s IH]; simpl; [reflexivity|].
  intros H. apply andb_true_iff in H as [Hd Hs].
  destruct (Ascii.eqb d c) eqn:E; [|now apply IH].
  apply Ascii.eqb_eq in E; subst. congruence.
Qed.

Lemma length_append (a b : string) :
  String.length (a ++ b) = (String.length a + String.length b)%nat.
Proof. induction a as [|c a IH]; simpl; [reflexivity|]. now rewrite IH. Qed.

(** The second loop of [escape] fills the buffer the first loop measured:
    three bytes for each byte counted, one for every other byte. *)
Lemma escape_bytes_length (s : string) :
  Z.of_nat (String.length (url.escape_bytes s)) =
  Z.of_nat (String.length s) + 2 * snd (url.count_escapes s) /\
  0 <= snd (url.count_escapes s) <= Z.of_nat (String.length s).
Proof.
  induction s as [|c s [IH Hb]]; [simpl; lia|].
  cbn [url.escape_bytes url.count_escapes].
  destruct (url.count_escapes s) as [sp hx]; cbn [snd] in *.
  destruct (Ascii.eqb c " ") eqn:Esp.
  - apply Ascii.eqb_eq in Esp; subst c. rewrite space_is_escaped.
    cbn [snd String.length]. rewrite !Nat2Z.inj_succ. lia.
  - destruct (url.shouldEscape c); cbn [snd String.length];
      rewrite !Nat2Z.inj_succ; lia.
Qed.

(** X3. The path is 19 bytes longer than the escaped reference, which
    has two more bytes for each byte of the reference written as [%XX]:
    between [len + 19] and [3 * len + 19] bytes for a reference of [len]
    bytes. *)
Theorem path_length (project : string) :
  Z.of_nat (String.length (push_rule_path project)) =
    19 + Z.of_nat (String.length project) + 2 * snd (url.count_escapes project) /\
  (String.length project + 19 <= String.length (push_rule_path project)
   <= 3 * String.length project + 19)%nat.
Proof.
  unfold push_rule_path. rewrite !length_append, QueryEscape_bytes.
  destruct (escape_bytes_length project) as [Hlen Hb].
  simpl String.length. lia.
Qed.

Lemma escape_bytes_fixed (s : string) :
  url.escape_bytes s = s -> url.all_bytes url.unreserved s = true.
Proof.
  induction s as [|c s IH]; simpl; [reflexivity|].
  destruct (Ascii.eqb c " ") eqn:Esp.
  - apply Ascii.eqb_eq in Esp; subst c. discriminate.
  - destruct (url.shouldEscape c) eqn:E; intros H.
    + exfalso. injection H as Hc Hs.
      apply (f_equal String.length) in Hs. cbn [String.length] in Hs.
      destruct (escape_bytes_length s) as [Hlen Hb]. lia.
    + injection H as Hs.
      unfold url.unreserved at 1. rewrite E. simpl. now apply IH.
Qed.

(** X10. The reference stands in the path as it is exactly when all its
    bytes are letters, digits, [-], [_], [.] or [~]; any other byte, a
    space or a [/] for one, changes it. *)
Theorem path_verbatim_iff (project : string) :
  push_rule_path project = "projects/" ++ project ++ "/push_rule" <->
  url.all_bytes url.unreserved project = true.
Proof.
  split.
  - unfold push_rule_path. simpl. intros E. inversion E as [E'].
    apply append_inv_tail in E'. rewrite QueryEscape_bytes in E'.
    now apply escape_bytes_fixed.
  - intros H. unfold push_rule_path. now rewrite (QueryEscape_unreserved _ H).
Qed.

Section MoreServiceFacts.

Context {rt : Runtime} {pkg : Package}.

(** X1. Two references that resolve to different projects are never asked
    for under the same path, whichever of the four methods is called for
    each and in whatever state: [QueryEscape] loses nothing. *)
Theorem distinct_projects_distinct_paths (op1 op2 : operation)
    (pid1 pid2 : any) (project1 project2 : string)
    (options1 options2 : list OptionFunc) (st1 st2 : state)
    (m1 m2 u : string) (o1 o2 : OptArg ptr) (os1 os2 : list OptionFunc) :
  parseID pid1 = inl project1 ->
  parseID pid2 = inl project2 ->
  hd_error (new_calls st1 (snd (run op1 pid1 options1 st1))) =
    Some (NewRequestCall m1 u o1 os1) ->
  hd_error (new_calls st2 (snd (run op2 pid2 options2 st2))) =
    Some (NewRequestCall m2 u o2 os2) ->
  project1 = project2.
Proof.
  intros Hid1 Hid2 H1 H2.
  rewrite (run_first_call op1 pid1 project1 options1 st1 Hid1) in H1.
  rewrite (run_first_call op2 pid2 project2 options2 st2 Hid2) in H2.
  inversion H1 as [[Hm1 Hu1 Ho1 Hos1]]. inversion H2 as [[Hm2 Hu2 Ho2 Hos2]].
  apply push_rule_path_inj. congruence.
Qed.

(** X2. Whatever the reference, a path that any of the four methods asks
    [NewRequest] for has three segments and no more: [projects], the
    escaped reference, [push_rule].  The escaped reference holds only
    letters, digits, [-], [_], [.], [~], [%] and [+], so the path has two
    [/] and no [?] or [#]. *)
Theorem path_has_three_segments (op : operation) (pid : any)
    (options : list OptionFunc) (st : state)
    (m u : string) (o : OptArg ptr) (os : list OptionFunc) :
  In (NewRequestCall m u o os) (new_calls st (snd (run op pid options st))) ->
  exists project,
    parseID pid = inl project /\
    u = "projects/" ++ url.QueryEscape project ++ "/push_rule" /\
    url.all_bytes segment_byte (url.QueryEscape project) = true /\
    count_byte "/" u = 2%nat /\
    count_byte "?" u = 0%nat /\
    count_byte "#" u = 0%nat.
Proof.
  rewrite run_shape. destruct (parseID pid) as [project|e].
  - cbv zeta. intros Hin. exists project.
    assert (Hu : u = push_rule_path project).
    { destruct (NewRequest _ _ _ _ _) as [[req|e] w1].
      - destruct (Do _ _ _) as [[[after resp] err] w2].
        simpl snd in Hin. rewrite new_calls_app in Hin.
        destruct Hin as [E|[E|[]]]; [now inversion E | discriminate].
      - simpl snd in Hin. rewrite new_calls_app in Hin.
        destruct Hin as [E|[]]. now inversion E. }
    assert (Hseg : url.all_bytes segment_byte (url.QueryEscape project) = true)
      by (rewrite QueryEscape_bytes; apply escape_bytes_segment).
    split; [reflexivity|]. split; [exact Hu|]. split; [exact Hseg|].
    subst u. unfold push_rule_path. rewrite !count_byte_app.
    rewrite (count_byte_none segment_byte "/" _ eq_refl Hseg).
    rewrite (count_byte_none segment_byte "?" _ eq_refl Hseg).
    rewrite (count_byte_none segment_byte "#" _ eq_refl Hseg).
    repeat split.
  - simpl snd. rewrite new_calls_same. intros [].
Qed.

(** X4. When the reference resolves, the request is built and [Do] reports
    no error, [GetPushRule], [AddPushRule] and [EditPushRule] return what
    [Do] left behind the pointer it was given, the response of [Do] and no
    error.  The one [Do] of such a run is given the request that
    [NewRequest] returned and a [PushRules] with every field zero: nothing
    of an earlier call is in it. *)
Theorem success_returns_decoded (op : operation) (pid : any) (project : string)
    (options : list OptionFunc) (st : state) (req : Request) (w1 w2 : World)
    (after : option PushRules) (resp : option Response) :
  op <> Delete ->
  parseID pid = inl project ->
  NewRequest (method op) (push_rule_path project) (body op) options (world st)
    = (inl req, w1) ->
  Do req (Some new_PushRules) w1 = ((after, resp, None), w2) ->
  fst (run op pid options st) = (Some (pointee new_PushRules after), resp, None) /\
  (forall p, after = Some p -> rules_of (fst (run op pid options st)) = Some p) /\
  (forall req' v,
     In (DoCall req' v) (new_calls st (snd (run op pid options st))) ->
     req' = req /\ v = Some new_PushRules).
Proof.
  intros Hop Hid Hreq Hdo.
  assert (Ht : target op = Some new_PushRules)
    by (destruct op; try reflexivity; now elim Hop).
  rewrite <- Ht in Hdo.
  rewrite (run_sent op pid project options st req w1 w2 after resp None
             Hid Hreq Hdo).
  simpl fst; simpl snd. rewrite new_calls_app.
  assert (Hret : returned op after None = Some (pointee new_PushRules after))
    by (destruct op; try reflexivity; now elim Hop).
  rewrite Hret. split; [reflexivity|]. split.
  - intros p ->. reflexivity.
  - intros req' v [E|[E|[]]]; [discriminate|].
    inversion E; subst. now rewrite Ht.
Qed.

End MoreServiceFacts.

(** ** The codec and the two structs *)

Section MoreCodecFacts.

Context {rt : Runtime}.

Section AnyStruct.

Variable R : Type.
Variable fields : list (field R).

Lemma find_field_none (fs : list (field R)) (key : string) :
  (forall f, In f fs -> key_matches (fname f) key = false) ->
  find_field fs key None = None.
Proof.
  induction fs as [|ff fs IH]; simpl; intros H; [reflexivity|].
  pose proof (H ff (or_introl eq_refl)) as Hff. unfold key_matches in Hff.
  apply orb_false_iff in Hff as [Heq Hfold]. rewrite Heq, Hfold.
  apply IH. intros f Hf. apply H. now right.
Qed.

(** A member whose key selects no field changes nothing. *)
Lemma decode_object_skip (m1 m2 : list (string * json)) (key : string) (j : json) :
  find_field fields key None = None ->
  forall r saved,
  decode_object fields (m1 ++ (key, j) :: m2) r saved =
  decode_object fields (m1 ++ m2) r saved.
Proof.
  intros Hnone. induction m1 as [|[k v] m1 IH]; intros r saved; simpl.
  - now rewrite Hnone.
  - destruct (find_field fields k None) as [f|]; [|apply IH].
    destruct (decode (fkind f) (fget f r) v) as [x o].
    destruct o; [apply IH | apply IH | reflexivity].
Qed.

(** An error that was saved is still there at the end. *)
Lemma saved_stays (members : list (string * json)) :
  forall r e, snd (decode_object fields members r (Some e)) <> None.
Proof.
  induction members as [|[k v] members IH]; intros r e; simpl; [discriminate|].
  destruct (find_field fields k None) as [f|]; [|apply IH].
  destruct (decode (fkind f) (fget f r) v) as [x o].
  destruct o; [apply IH | apply IH | discriminate].
Qed.

(** A value that its field rejects is reported, wherever in the object it
    stands and whatever else the object holds. *)
Lemma rejected_reported (zeroR : R) (f : field R) (j : json)
    (m1 m2 : list (string * json)) :
  lawful fields zeroR -> In f fields -> rejected (fkind f) j ->
  forall r saved,
  snd (decode_object fields (m1 ++ (fname f, j) :: m2) r saved) <> None.
Proof.
  intros Hlaw Hf Hrej. induction m1 as [|[k v] m1 IH]; intros r saved; simpl.
  - rewrite (find_field_exact R fields f (names_nodup Hlaw) Hf).
    pose proof (Hrej (fget f r)) as Hout.
    destruct (decode (fkind f) (fget f r) j) as [x o]. simpl in Hout.
    destruct o as [|e|e]; [contradiction | | discriminate].
    destruct saved; apply saved_stays.
  - destruct (find_field fields k None) as [g|]; [|apply IH].
    destruct (decode (fkind g) (fget g r) v) as [x o].
    destruct o; [apply IH | apply IH | discriminate].
Qed.

End AnyStruct.

(** *** What is sent and what comes back *)

(** The object written for an options value is the one written for the
    [PushRules] that holds its fields and nothing else. *)
Lemma options_as_rules (o : AddPushRulesOptions) :
  encode_fields AddPushRulesOptions_fields o =
  encode_fields PushRules_fields (of_options o).
Proof.
  destruct o as [a b c d e f g h].
  destruct a, b, c, d, e, f, g, h; reflexivity.
Qed.

Lemma of_options_well_formed (o : AddPushRulesOptions) :
  (forall n, Opt_MaxFileSizeMB o = Some n -> fits_int n = true) ->
  well_formed PushRules_fields (of_options o).
Proof.
  intros Hfit f Hf. each_field Hf; try reflexivity. simpl.
  destruct (Opt_MaxFileSizeMB o) as [n|]; [|reflexivity]. now apply Hfit.
Qed.

Lemma of_options_no_time (o : AddPushRulesOptions) :
  created_at_reads_back (of_options o).
Proof. intros t s H. discriminate. Qed.

Lemma options_echo_body (o : AddPushRulesOptions) (reply : json) :
  (forall n, Opt_MaxFileSizeMB o = Some n -> fits_int n = true) ->
  MarshalPtr AddPushRulesOptions_fields (Some o) = inl reply ->
  Unmarshal PushRules_fields reply new_PushRules =
    (as_written (of_options o), None).
Proof.
  intros Hfit E. simpl in E. unfold Marshal in E. rewrite options_as_rules in E.
  apply PushRules_round_trip;
    [now apply of_options_well_formed | apply of_options_no_time | exact E].
Qed.

Lemma of_options_inj (o1 o2 : AddPushRulesOptions) :
  of_options o1 = of_options o2 -> o1 = o2.
Proof. destruct o1, o2. unfold of_options; simpl. intros E. now inversion E. Qed.

(** X5. The options struct and [PushRules] agree on their eight common
    fields, name by name and type by type: the body written for an options
    value (whose [MaxFileSizeMB], if set, is a Go [int]) always exists, and
    read as a [PushRules] it decodes without error to the rules that hold
    the fields of the options as they are written, with [id] and
    [project_id] 0 and no [created_at].  The fields as they are written are
    the fields themselves, but for the bytes of a string that begin no
    UTF-8 sequence, which are written as U+FFFD: options whose strings are
    valid UTF-8 come back exactly. *)
Theorem options_echo (o : AddPushRulesOptions) :
  (forall n, Opt_MaxFileSizeMB o = Some n -> fits_int n = true) ->
  exists reply,
    MarshalPtr AddPushRulesOptions_fields (Some o) = inl reply /\
    Unmarshal PushRules_fields reply new_PushRules =
      (as_written (of_options o), None) /\
    present (as_written (of_options o)) = populated o /\
    (valid_strings (of_options o) ->
     Unmarshal PushRules_fields reply new_PushRules = (of_options o, None)).
Proof.
  intros Hfit. destruct (options_encode_total o) as [members E].
  exists (JObject members).
  assert (Em : MarshalPtr AddPushRulesOptions_fields (Some o) = inl (JObject members))
    by (simpl; unfold Marshal; now rewrite E).
  pose proof (options_echo_body o (JObject members) Hfit Em) as Hecho.
  split; [exact Em|]. split; [exact Hecho|]. split.
  - rewrite present_as_written, <- present_written, <- populated_written.
    pose proof (encode_fields_keys _ AddPushRulesOptions_fields o members E) as K1.
    rewrite options_as_rules in E.
    pose proof (encode_fields_keys _ PushRules_fields (of_options o) members E) as K2.
    congruence.
  - intros Hv. now rewrite (valid_as_written _ Hv) in Hecho.
Qed.

(** X6. The body determines the options as they are written: two options
    values (whose [MaxFileSizeMB], if set, are Go [int]s) that are written
    as the same JSON hold the same fields once each byte of their strings
    that begins no UTF-8 sequence is replaced by U+FFFD; if their strings
    are valid UTF-8 they are the same value, field by field, a nil field
    and a field set to [false], [0] or [""] included. *)
Theorem options_body_injective (o1 o2 : AddPushRulesOptions) (sent : json) :
  (forall n, Opt_MaxFileSizeMB o1 = Some n -> fits_int n = true) ->
  (forall n, Opt_MaxFileSizeMB o2 = Some n -> fits_int n = true) ->
  MarshalPtr AddPushRulesOptions_fields (Some o1) = inl sent ->
  MarshalPtr AddPushRulesOptions_fields (Some o2) = inl sent ->
  as_written (of_options o1) = as_written (of_options o2) /\
  (valid_strings (of_options o1) -> valid_strings (of_options o2) -> o1 = o2).
Proof.
  intros Hfit1 Hfit2 E1 E2.
  pose proof (options_echo_body o1 sent Hfit1 E1) as H1.
  pose proof (options_echo_body o2 sent Hfit2 E2) as H2.
  assert (Hsame : as_written (of_options o1) = as_written (of_options o2))
    by congruence.
  split; [exact Hsame|]. intros Hv1 Hv2.
  apply of_options_inj.
  now rewrite <- (valid_as_written _ Hv1), <- (valid_as_written _ Hv2).
Qed.

(** *** Replies that are not what the struct expects *)

(** X7. A member of a reply whose key is the name of no field of
    [PushRules], exactly or folded, is ignored: the reply decodes to the
    same value, with the same error if any, as the reply without it,
    wherever the member stands and whatever it holds. *)
Theorem unknown_key_ignored (m1 m2 : list (string * json)) (key : string)
    (j : json) (r : PushRules) :
  (forall f, In f PushRules_fields -> key_matches (fname f) key = false) ->
  Unmarshal PushRules_fields (JObject (m1 ++ (key, j) :: m2)) r =
  Unmarshal PushRules_fields (JObject (m1 ++ m2)) r.
Proof.
  intros Hkey. simpl. apply decode_object_skip.
  now apply find_field_none.
Qed.

Lemma nulls_into_new (members : list (string * json)) :
  (forall key j, In (key, j) members -> j = JNull) ->
  decode_object PushRules_fields members new_PushRules None =
  (new_PushRules, None).
Proof.
  induction members as [|[key j] members IH]; intros Hnull; [reflexivity|].
  assert (Hrest : forall k v, In (k, v) members -> v = JNull)
    by (intros k v Hin; apply (Hnull k v); now right).
  rewrite (Hnull key j (or_introl eq_refl)). cbn [decode_object].
  destruct (find_field PushRules_fields key None) as [f|] eqn:Efind;
    [|now apply IH].
  apply find_field_sound in Efind as [Habs|[Hf _]]; [discriminate|].
  each_field Hf; exact (IH Hrest).
Qed.

(** X8. In a reply, [null] is the same as nothing: an object all of whose
    members are [null], whatever their keys, decodes into a new
    [PushRules] without error and leaves it as it was, every pointer nil
    and both identifiers 0. *)
Theorem null_is_absent (members : list (string * json)) :
  (forall key j, In (key, j) members -> j = JNull) ->
  Unmarshal PushRules_fields (JObject members) new_PushRules =
  (new_PushRules, None).
Proof. intros Hnull. simpl. now apply nulls_into_new. Qed.

(** X9. A reply in which a field of [PushRules], under its own name, has a
    value the field rejects (a string for a boolean, a number that is no
    [int], a time that does not parse) is never decoded without error,
    wherever the member stands and whatever the other members are. *)
Theorem rejected_value_is_an_error (f : field PushRules) (j : json)
    (m1 m2 : list (string * json)) (r : PushRules) :
  In f PushRules_fields ->
  rejected (fkind f) j ->
  snd (Unmarshal PushRules_fields (JObject (m1 ++ (fname f, j) :: m2)) r) <> None.
Proof.
  intros Hf Hrej. simpl.
  exact (rejected_reported _ PushRules_fields new_PushRules f j m1 m2
           PushRules_lawful Hf Hrej r None).
Qed.

End MoreCodecFacts.

(** ** The further properties at concrete calls *)

(** X1 at [GetPushRule(42)] and [DeletePushRule("42")]. *)
Lemma distinct_projects_distinct_paths_witness :
  parseID_spec (AnyInt 42) = inl "42" /\
  parseID_spec (AnyString "42") = inl "42" /\
  hd_error (new_calls (Demo.start [])
              (snd (Demo.run Get (AnyInt 42) [] (Demo.start [])))) =
    Some (Demo.requested "GET" "projects/42/push_rule" NoOpt []) /\
  hd_error (new_calls (Demo.start [])
              (snd (Demo.run Delete (AnyString "42") [] (Demo.start [])))) =
    Some (Demo.requested "DELETE" "projects/42/push_rule" NoOpt []) /\
  "42" = "42".
Proof.
  split; [reflexivity|]. split; [reflexivity|].
  split; [reflexivity|]. split; [reflexivity|].
  exact (@distinct_projects_distinct_paths Demo.runtime Demo.package
           Get Delete (AnyInt 42) (AnyString "42") "42" "42" [] []
           (Demo.start []) (Demo.start [])
           "GET" "DELETE" "projects/42/push_rule" NoOpt NoOpt [] []
           eq_refl eq_refl eq_refl eq_refl).
Defined.

(** X2 at [AddPushRule("group/../proj", &opt)]: the dots and the slashes
    of the reference stay inside one segment. *)
Lemma path_has_three_segments_witness :
  In (Demo.requested "POST" "projects/group%2F..%2Fproj/push_rule"
        (AddOpt (Some 0%nat)) [])
     (new_calls (Demo.start [])
        (snd (Demo.run (@Add Demo.runtime Demo.package (Some 0%nat)) (AnyString "group/../proj") []
                (Demo.start [])))) /\
  exists project,
    parseID_spec (AnyString "group/../proj") = inl project /\
    "projects/group%2F..%2Fproj/push_rule" =
      "projects/" ++ url.QueryEscape project ++ "/push_rule" /\
    url.all_bytes segment_byte (url.QueryEscape project) = true /\
    count_byte "/" "projects/group%2F..%2Fproj/push_rule" = 2%nat /\
    count_byte "?" "projects/group%2F..%2Fproj/push_rule" = 0%nat /\
    count_byte "#" "projects/group%2F..%2Fproj/push_rule" = 0%nat.
Proof.
  assert (Hin :
    In (Demo.requested "POST" "projects/group%2F..%2Fproj/push_rule"
          (AddOpt (Some 0%nat)) [])
       (new_calls (Demo.start [])
          (snd (Demo.run (@Add Demo.runtime Demo.package (Some 0%nat)) (AnyString "group/../proj") []
                  (Demo.start [])))))
    by (left; reflexivity).
  split; [exact Hin|].
  exact (@path_has_three_segments Demo.runtime Demo.package
           (@Add Demo.runtime Demo.package (Some 0%nat)) (AnyString "group/../proj") [] (Demo.start [])
           "POST" "projects/group%2F..%2Fproj/push_rule" (AddOpt (Some 0%nat)) []
           Hin).
Defined.

(** X4 at [GetPushRule(42)] against a server that has rules for 42. *)
Lemma success_returns_decoded_witness :
  Demo.new_request "GET" "projects/42/push_rule" NoOpt []
    (Demo.serving [(200, Demo.reply_42)]) =
    (inl ("GET", "projects/42/push_rule"), Demo.serving [(200, Demo.reply_42)]) /\
  Demo.do ("GET", "projects/42/push_rule") (Some Demo.new)
    (Demo.serving [(200, Demo.reply_42)]) =
    ((Some Demo.rules_42, Some 200, None), Demo.serving []) /\
  fst (Demo.run Get (AnyInt 42) [] (Demo.start [(200, Demo.reply_42)])) =
    (Some Demo.rules_42, Some 200, None).
Proof.
  split; [reflexivity|]. split; [reflexivity|].
  assert (Hop : @Get Demo.runtime Demo.package <> Delete) by discriminate.
  exact (proj1
    (@success_returns_decoded Demo.runtime Demo.package
       Get (AnyInt 42) "42" [] (Demo.start [(200, Demo.reply_42)])
       ("GET", "projects/42/push_rule")
       (Demo.serving [(200, Demo.reply_42)]) (Demo.serving [])
       (Some Demo.rules_42) (Some 200)
       Hop eq_refl eq_refl eq_refl)).
Defined.

Lemma zeros_set_fits :
  forall n, Opt_MaxFileSizeMB zeros_set = Some n -> fits_int n = true.
Proof. intros n E. inversion E. reflexivity. Qed.

Lemma zeros_set_valid : @valid_strings Demo.runtime (of_options zeros_set).
Proof.
  intros s [E|[E|[E|[E|[]]]]]; try discriminate. now inversion E.
Qed.

(** X5 at an options value with three fields set to zero values. *)
Lemma options_echo_witness :
  (forall n, Opt_MaxFileSizeMB zeros_set = Some n -> fits_int n = true) /\
  @valid_strings Demo.runtime (of_options zeros_set) /\
  Demo.marshal_options zeros_set =
    inl (JObject [("commit_message_regex", JString "");
                  ("deny_delete_tag", JBool false);
                  ("max_file_size", JInt 0)]) /\
  exists reply,
    Demo.marshal_options zeros_set = inl reply /\
    Demo.unmarshal reply =
      (@as_written Demo.runtime (of_options zeros_set), None) /\
    present (@as_written Demo.runtime (of_options zeros_set)) =
      populated zeros_set /\
    (@valid_strings Demo.runtime (of_options zeros_set) ->
     Demo.unmarshal reply = (@of_options Demo.runtime zeros_set, None)).
Proof.
  split; [exact zeros_set_fits|]. split; [exact zeros_set_valid|].
  split; [reflexivity|].
  exact (@options_echo Demo.runtime zeros_set zeros_set_fits).
Defined.

(** X6 at the same options value. *)
Lemma options_body_injective_witness :
  Demo.marshal_options zeros_set =
    inl (JObject [("commit_message_regex", JString "");
                  ("deny_delete_tag", JBool false);
                  ("max_file_size", JInt 0)]) /\
  @valid_strings Demo.runtime (of_options zeros_set) /\
  zeros_set = zeros_set.
Proof.
  split; [reflexivity|]. split; [exact zeros_set_valid|].
  exact (proj2
    (@options_body_injective Demo.runtime zeros_set zeros_set
       (JObject [("commit_message_regex", JString "");
                 ("deny_delete_tag", JBool false);
                 ("max_file_size", JInt 0)])
       zeros_set_fits zeros_set_fits eq_refl eq_refl)
    zeros_set_valid zeros_set_valid).
Defined.

Lemma message_is_no_field :
  forall f, In f Demo.fields ->
  @key_matches Demo.runtime (fname f) "message" = false.
Proof. intros f Hf. each_field Hf; reflexivity. Qed.

(** X7 at a reply with a [message] among its members. *)
Lemma unknown_key_ignored_witness :
  (forall f, In f Demo.fields ->
     @key_matches Demo.runtime (fname f) "message" = false) /\
  Demo.unmarshal
    (JObject [("id", JInt 1); ("message", JString "hello");
              ("project_id", JInt 42); ("deny_delete_tag", JBool true)]) =
  Demo.unmarshal Demo.reply_42.
Proof.
  split; [exact message_is_no_field|].
  exact (@unknown_key_ignored Demo.runtime
           [("id", JInt 1)]
           [("project_id", JInt 42); ("deny_delete_tag", JBool true)]
           "message" (JString "hello") Demo.new message_is_no_field).
Defined.

Lemma three_nulls :
  forall key j,
  In (key, j) [("deny_delete_tag", JNull); ("id", JNull); ("other", JNull)] ->
  j = JNull.
Proof.
  intros key j [E|[E|[E|[]]]]; now inversion E.
Qed.

(** X8 at a reply with three [null]s. *)
Lemma null_is_absent_witness :
  (forall key j,
     In (key, j) [("deny_delete_tag", JNull); ("id", JNull); ("other", JNull)] ->
     j = JNull) /\
  Demo.unmarshal
    (JObject [("deny_delete_tag", JNull); ("id", JNull); ("other", JNull)]) =
  (Demo.new, None).
Proof.
  split; [exact three_nulls|].
  exact (@null_is_absent Demo.runtime
           [("deny_delete_tag", JNull); ("id", JNull); ("other", JNull)]
           three_nulls).
Defined.

Lemma string_for_bool_rejected :
  @rejected Demo.runtime (Ptr Bool) (JString "yes").
Proof. intros cur. destruct cur; discriminate. Qed.

(** X9 at a reply whose [deny_delete_tag] is a string. *)
Lemma rejected_value_is_an_error_witness :
  @rejected Demo.runtime (Ptr Bool) (JString "yes") /\
  snd (Demo.unmarshal Demo.reply_bad) <> None.
Proof.
  split; [exact string_for_bool_rejected|].
  refine (@rejected_value_is_an_error Demo.runtime
            (Field "deny_delete_tag" true (Ptr Bool) DenyDeleteTag
               set_DenyDeleteTag)
            (JString "yes") [("id", JInt 1)] [] Demo.new _
            string_for_bool_rejected).
  do 4 right. left. reflexivity.
Defined.
